(** * The filter-and-aggregate pipeline of the suicide-statistics dashboard

    A shallow embedding of the tabular logic of [src/app.py]: [load_data]
    (lines 52-62), the filter mask (lines 114-120), the four key statistics
    (lines 150-157), the by-Year and by-State aggregates (lines 167, 231) and
    the state-name reconciliation for the map (lines 233-242); then the
    sidebar defaults (lines 82-111), the download links (lines 123-133), the
    Total Cases text (line 151), the by-category, state-ranking and
    Year-by-category aggregates (lines 183, 192, 202-217) and the colour
    range of the map (line 253).

    Modelling decisions, fixed once for the whole development:
    - a DataFrame is the list of its rows, in row order; every cell is
      present (no missing values);
    - text cells are ASCII strings; a character outside the ASCII letters is
      uncased, so [str_title] is Python's [str.title] on ASCII text; what
      [str.title] does beyond ASCII is modelled on code points in the
      module [Unicode], for the statements that depend on it;
    - [Year] and [Total] are int64 columns: a value is a [Z], and every
      integer addition pandas performs on them wraps around ([wrap64]);
    - a float64 result is an exact rational or one of the special values
      ([fnum]); rounding is not modelled. *)

From Stdlib Require Import List String Ascii Bool ZArith QArith Lia Sorted Permutation
  DecimalString DecimalZ
  OrderedTypeEx.
Import ListNotations.

Open Scope string_scope.
Open Scope list_scope.
Open Scope Z_scope.

(** ** Text: Python's [str.title] on ASCII *)

Module Text.

Definition is_upper (c : ascii) : bool :=
  let n := nat_of_ascii c in (Nat.leb 65 n && Nat.leb n 90)%bool.

Definition is_lower (c : ascii) : bool :=
  let n := nat_of_ascii c in (Nat.leb 97 n && Nat.leb n 122)%bool.

(** [_PyUnicode_IsCased] on ASCII: the letters. *)
Definition is_cased (c : ascii) : bool := (is_upper c || is_lower c)%bool.

Definition to_lower (c : ascii) : ascii :=
  if is_upper c then ascii_of_nat (nat_of_ascii c + 32) else c.

(** On ASCII the title-case mapping of a character is its upper case. *)
Definition to_title (c : ascii) : ascii :=
  if is_lower c then ascii_of_nat (nat_of_ascii c - 32) else c.

(** The loop of [str.title]: a cased character that follows a cased one is
    lower-cased, any other character is title-cased; [previous_is_cased]
    starts false and is updated from the character read, not the one
    written. *)
Fixpoint title_from (previous_is_cased : bool) (s : string) : string :=
  match s with
  | EmptyString => EmptyString
  | String c s' =>
      String (if previous_is_cased then to_lower c else to_title c)
             (title_from (is_cased c) s')
  end.

Definition str_title (s : string) : string := title_from false s.

Fixpoint str_lower (s : string) : string :=
  match s with
  | EmptyString => EmptyString
  | String c s' => String (to_lower c) (str_lower s')
  end.

(** Python's [str.strip()] with no argument, on ASCII: the characters
    removed are space, \t, \n, \v, \f, \r and the separators 28-31. *)
Definition is_space (c : ascii) : bool :=
  let n := nat_of_ascii c in
  (Nat.eqb n 32 || (Nat.leb 9 n && Nat.leb n 13) || (Nat.leb 28 n && Nat.leb n 31))%bool.

Fixpoint lstrip (s : string) : string :=
  match s with
  | EmptyString => EmptyString
  | String c s' => if is_space c then lstrip s' else s
  end.

Fixpoint rstrip (s : string) : string :=
  match s with
  | EmptyString => EmptyString
  | String c s' =>
      match rstrip s' with
      | EmptyString => if is_space c then EmptyString else String c EmptyString
      | t => String c t
      end
  end.

Definition str_strip (s : string) : string := rstrip (lstrip s).

(** The text normalization as the specification words it: trim, then
    title-case.  It is not what [load_data] applies; see [load_data]. *)
Definition spec_normalize_text (s : string) : string := str_title (str_strip s).

End Text.
Import Text.

(** ** Rows and [load_data] *)

Record Row : Type := mkRow {
  State : string;
  Type_ : string;
  Gender : string;
  Age_group : string;
  Year : Z;
  Total : Z
}.

Definition DataFrame : Type := list Row.

(** [Series.isin(values)]: membership of a cell in a list of values. *)
Definition isin (s : string) (values : list string) : bool :=
  existsb (String.eqb s) values.

Definition states_to_remove : list string :=
  ["Total (All India)"; "Total (States)"; "Total (Uts)"].

(** Lines 56-58: the three assignments [df[col] = df[col].str.title()]. *)
Definition title_columns (r : Row) : Row :=
  {| State := str_title (State r);
     Type_ := str_title (Type_ r);
     Gender := str_title (Gender r);
     Age_group := Age_group r;
     Year := Year r;
     Total := Total r |}.

(** [load_data] after [pd.read_csv]: title-case three columns, then keep
    the rows whose (title-cased) State is not a reserved total label. *)
Definition load_data (df : DataFrame) : DataFrame :=
  let df := map title_columns df in
  filter (fun r => negb (isin (State r) states_to_remove)) df.

(** The input rows that [load_data] keeps, before their text is rewritten. *)
Definition retained (df : DataFrame) : DataFrame :=
  filter (fun r => negb (isin (str_title (State r)) states_to_remove)) df.

(** Order-preserving sub-sequence. *)
Inductive subseq {A : Type} : list A -> list A -> Prop :=
| subseq_nil : subseq [] []
| subseq_skip : forall x l1 l2, subseq l1 l2 -> subseq l1 (x :: l2)
| subseq_keep : forall x l1 l2, subseq l1 l2 -> subseq (x :: l1) (x :: l2).

(** ** The filter mask (lines 114-120) *)

(** The sidebar selections: the multiselects return lists of values, the
    year slider a pair (low, high). *)
Record FilterSpec : Type := mkFilterSpec {
  selected_states : list string;
  selected_years : Z * Z;
  selected_type : list string;
  selected_gender : list string;
  selected_age_group : list string
}.

(** [Series.between(left, right)], inclusive on both sides. *)
Definition between (x left right : Z) : bool := (left <=? x) && (x <=? right).

Definition mask (spec : FilterSpec) (r : Row) : bool :=
  isin (State r) (selected_states spec)
  && between (Year r) (fst (selected_years spec)) (snd (selected_years spec))
  && isin (Type_ r) (selected_type spec)
  && isin (Gender r) (selected_gender spec)
  && isin (Age_group r) (selected_age_group spec).

Definition filtered_df (df : DataFrame) (spec : FilterSpec) : DataFrame :=
  filter (mask spec) df.

(** ** int64 sums and float results *)

Definition wrap64 (z : Z) : Z := (z + 2 ^ 63) mod 2 ^ 64 - 2 ^ 63.

Definition add64 (a b : Z) : Z := wrap64 (a + b).

(** [Series.sum()] of an int64 column. *)
Definition sum64 (vs : list Z) : Z := fold_left add64 vs 0.

(** The unbounded sum, for statements only. *)
Definition sumZ (vs : list Z) : Z := fold_right Z.add 0 vs.

Inductive fnum : Type :=
| Finite (q : Q)
| PosInf
| NegInf
| NaN.

(** numpy's true division of two int64 scalars: a zero divisor gives a
    special value (and a warning), it does not raise. *)
Definition true_divide (a b : Z) : fnum :=
  if b =? 0 then
    if a =? 0 then NaN else if 0 <? a then PosInf else NegInf
  else Finite (Qred (inject_Z a / inject_Z b)%Q).

Definition fmul (x : fnum) (k : Q) : fnum :=
  match x with
  | Finite q => Finite (Qred (q * k)%Q)
  | other => other
  end.

(** [Series.mean()] of a float column without missing values. *)
Definition mean (xs : list Q) : fnum :=
  match xs with
  | [] => NaN
  | _ => Finite (Qred (fold_right Qplus 0 xs / inject_Z (Z.of_nat (List.length xs)))%Q)
  end.

(** ** Exceptions *)

Inductive exn : Type := ValueError.

Inductive result (A : Type) : Type :=
| Ok (a : A)
| Raise (e : exn).
Arguments Ok {A} a.
Arguments Raise {A} e.

Definition bind {A B : Type} (m : result A) (k : A -> result B) : result B :=
  match m with
  | Ok a => k a
  | Raise e => Raise e
  end.

Notation "x <- m ;; k" := (bind m (fun x => k))
  (at level 61, m at next level, right associativity).

(** ** groupby *)

(** A group holds the [Total] cells of its rows in row order; it is never
    empty. *)
Record Group : Type := mkGroup { first : Z; rest : list Z }.

Definition values (g : Group) : list Z := first g :: rest g.

Definition push (g : Group) (v : Z) : Group :=
  {| first := first g; rest := rest g ++ [v] |}.

(** One row enters the grouping: its key joins the group of an equal key,
    or opens a new group at its place in ascending key order
    ([groupby(..., sort=True)], the default). *)
Fixpoint group_insert {K : Type} (cmp : K -> K -> comparison)
    (k : K) (v : Z) (gs : list (K * Group)) : list (K * Group) :=
  match gs with
  | [] => [(k, mkGroup v [])]
  | (k', g) :: gs' =>
      match cmp k k' with
      | Eq => (k', push g v) :: gs'
      | Lt => (k, mkGroup v []) :: gs
      | Gt => (k', g) :: group_insert cmp k v gs'
      end
  end.

(** [df.groupby(key)['Total']]. *)
Definition groupby {K : Type} (cmp : K -> K -> comparison) (key : Row -> K)
    (df : DataFrame) : list (K * Group) :=
  fold_left (fun gs r => group_insert cmp (key r) (Total r) gs) df [].

(** [.sum()] and [.mean()] of a grouped int64 column. *)
Definition agg_sum {K : Type} (gs : list (K * Group)) : list (K * Z) :=
  map (fun kg => (fst kg, sum64 (values (snd kg)))) gs.

Definition group_mean (g : Group) : Q :=
  Qred (inject_Z (sumZ (values g)) / inject_Z (Z.of_nat (List.length (values g))))%Q.

Definition agg_mean {K : Type} (gs : list (K * Group)) : list (K * Q) :=
  map (fun kg => (fst kg, group_mean (snd kg))) gs.

(** [Series.idxmax()]: the label of the first occurrence of the maximum;
    on an empty Series it raises [ValueError]. *)
Fixpoint idxmax_from {K : Type} (best : K * Z) (s : list (K * Z)) : K :=
  match s with
  | [] => fst best
  | kv :: s' => if snd best <? snd kv then idxmax_from kv s' else idxmax_from best s'
  end.

Definition idxmax {K : Type} (s : list (K * Z)) : result K :=
  match s with
  | [] => Raise ValueError
  | kv :: s' => Ok (idxmax_from kv s')
  end.

(** ** Key statistics (lines 150-157) *)

Definition total_cases (df : DataFrame) : Z := sum64 (map Total df).

(** Line 153: [groupby('Year')['Total'].mean().mean()]. *)
Definition avg_annual_cases (df : DataFrame) : fnum :=
  mean (map snd (agg_mean (groupby Z.compare Year df))).

(** Line 155: [groupby('State')['Total'].sum().idxmax()]. *)
Definition most_affected_state (df : DataFrame) : result string :=
  idxmax (agg_sum (groupby String.compare State df)).

(** Line 157: the Male share of the total, in percent. *)
Definition gender_ratio (df : DataFrame) : fnum :=
  fmul (true_divide (sum64 (map Total (filter (fun r => String.eqb (Gender r) "Male") df)))
                    (sum64 (map Total df)))
       (inject_Z 100).

(** The four metrics are evaluated in this order; an exception in one
    ends the script run, so the later ones are not evaluated. *)
Definition key_statistics (df : DataFrame) : result (Z * fnum * string * fnum) :=
  let total := total_cases df in
  let avg := avg_annual_cases df in
  state <- most_affected_state df ;;
  Ok (total, avg, state, gender_ratio df).

(** Line 167: [groupby('Year')['Total'].sum().reset_index()]. *)
Definition yearly_data (df : DataFrame) : list (Z * Z) :=
  agg_sum (groupby Z.compare Year df).

(** Line 183: [groupby(category)['Total'].sum().reset_index()], where
    [category] is one of Type, Gender and Age_group. *)
Definition category_data (category : Row -> string) (df : DataFrame)
    : list (string * Z) :=
  agg_sum (groupby String.compare category df).

(** The statistic as the specification words it: sum by Year, then the
    mean of those sums. *)
Definition spec_avg_annual_cases (df : DataFrame) : fnum :=
  mean (map (fun yt => inject_Z (snd yt)) (yearly_data df)).

(** The per-State sum of [Total], written directly on the table. *)
Definition state_total (s : string) (df : DataFrame) : Z :=
  sum64 (map Total (filter (fun r => String.eqb (State r) s) df)).

(** ** Geographic name reconciliation (lines 231-242) *)

Definition state_name_mapping : list (string * string) :=
  [ ("Odisha", "Orissa");
    ("Jammu & Kashmir", "Jammu and Kashmir");
    ("A & N Islands", "Andaman and Nicobar");
    ("D & N Haveli", "Dadra and Nagar Haveli");
    ("Daman & Diu", "Daman and Diu");
    ("Delhi (Ut)", "Delhi");
    ("Uttarakhand", "Uttaranchal") ].

(** [Series.replace(dict)] on one cell: a cell equal to a key becomes the
    key's value, any other cell is left as it is. *)
Definition replace (mapping : list (string * string)) (s : string) : string :=
  match find (fun kv => String.eqb (fst kv) s) mapping with
  | Some kv => snd kv
  | None => s
  end.

Definition map_data (df : DataFrame) : list (string * Z) :=
  map (fun sv => (replace state_name_mapping (fst sv), snd sv))
      (agg_sum (groupby String.compare State df)).

(** ** The text rules of [load_data], as relations between an input row
    and the output row it becomes *)



(** The columns [load_data] does not touch. *)
Definition passed_through (raw out : Row) : Prop :=
  Age_group out = Age_group raw
  /\ Year out = Year raw
  /\ Total out = Total raw.

(** The five conditions of the mask, as a proposition. *)
Definition selected (spec : FilterSpec) (r : Row) : Prop :=
  In (State r) (selected_states spec)
  /\ fst (selected_years spec) <= Year r <= snd (selected_years spec)
  /\ In (Type_ r) (selected_type spec)
  /\ In (Gender r) (selected_gender spec)
  /\ In (Age_group r) (selected_age_group spec).

(** ** Reading a grouping *)

(** The group stored under a key, if any. *)
Fixpoint get {K : Type} (cmp : K -> K -> comparison) (k : K)
    (gs : list (K * Group)) : option Group :=
  match gs with
  | [] => None
  | (k', g) :: gs' =>
      match cmp k k' with
      | Eq => Some g
      | _ => get cmp k gs'
      end
  end.

Definition values_of {K : Type} (cmp : K -> K -> comparison) (k : K)
    (gs : list (K * Group)) : list Z :=
  match get cmp k gs with
  | Some g => values g
  | None => []
  end.

(** The rows of a table whose key is [k]. *)
Definition keyed {K : Type} (cmp : K -> K -> comparison) (key : Row -> K)
    (k : K) (r : Row) : bool :=
  match cmp (key r) k with
  | Eq => true
  | _ => false
  end.

(** Keys in strictly ascending order. *)
Definition ascending {K V : Type} (cmp : K -> K -> comparison)
    (gs : list (K * V)) : Prop :=
  StronglySorted (fun a b => cmp a b = Lt) (map fst gs).

(** All the cells a grouping holds. *)
Definition cells {K : Type} (gs : list (K * Group)) : list Z :=
  List.concat (map (fun kg => values (snd kg)) gs).

(** ** Concrete tables used in the statements *)

(** One year, two rows. *)
Definition one_year_two_rows : DataFrame :=
  [ mkRow "Kerala" "Causes" "Male" "15-29" 2019 10;
    mkRow "Kerala" "Causes" "Female" "15-29" 2019 20 ].

(** A table and a year range that excludes all of its rows. *)
Definition small_table : DataFrame :=
  [ mkRow "Kerala" "Causes" "Male" "15-29" 2019 10;
    mkRow "Goa" "Causes" "Female" "30-44" 2020 7 ].

Definition years_before_table : FilterSpec :=
  mkFilterSpec ["Kerala"; "Goa"] (2001, 2005) ["Causes"] ["Male"; "Female"]
               ["15-29"; "30-44"].

(** ** Sidebar defaults (lines 82-111) *)

(** [Series.unique()]: the distinct values, in order of first appearance. *)
Fixpoint unique_from (seen l : list string) : list string :=
  match l with
  | [] => []
  | x :: l' =>
      if isin x seen then unique_from seen l' else x :: unique_from (x :: seen) l'
  end.

Definition unique (l : list string) : list string := unique_from [] l.

(** [Series.min()] and [Series.max()] of an int64 column: no value (NaN)
    on an empty column. *)
Definition series_min (vs : list Z) : option Z :=
  match vs with
  | [] => None
  | v :: vs' => Some (fold_left Z.min vs' v)
  end.

Definition series_max (vs : list Z) : option Z :=
  match vs with
  | [] => None
  | v :: vs' => Some (fold_left Z.max vs' v)
  end.

(** [int(x)] of such a result: [int(nan)] raises [ValueError]. *)
Definition int_of (x : option Z) : result Z :=
  match x with
  | Some z => Ok z
  | None => Raise ValueError
  end.

(** The selections the sidebar starts with: every multiselect defaults to
    its options, the distinct values of its column, and the year slider to
    the whole span of the Year column. *)
Definition default_spec (df : DataFrame) : result FilterSpec :=
  let states := unique (map State df) in
  low <- int_of (series_min (map Year df)) ;;
  high <- int_of (series_max (map Year df)) ;;
  Ok (mkFilterSpec states (low, high) (unique (map Type_ df))
                   (unique (map Gender df)) (unique (map Age_group df))).

(** ** Year by category (lines 202-217) *)

(** Row order of a two-key [groupby(['Year', column])]: by Year, then by
    the column. *)
Definition pair_compare (a b : Z * string) : comparison :=
  match fst a ?= fst b with
  | Eq => String.compare (snd a) (snd b)
  | c => c
  end.

(** The [if / elif / else] on the selectbox value. *)
Definition analysis_column (analysis_type : string) : Row -> string :=
  if String.eqb analysis_type "Age Group Trends" then Age_group
  else if String.eqb analysis_type "Gender Comparison" then Gender
  else Type_.

Definition analysis_data (analysis_type : string) (df : DataFrame)
    : list ((Z * string) * Z) :=
  agg_sum (groupby pair_compare
             (fun r => (Year r, analysis_column analysis_type r)) df).

(** ** State ranking (line 192) and the map's colour range (line 253) *)

(** [sort_values('Total', ascending=False)] with the default sort kind,
    which is not stable: the result is some descending rearrangement of
    the rows; the order among equal totals is left open. *)
Definition sort_values_descending (s out : list (string * Z)) : Prop :=
  Permutation s out
  /\ StronglySorted (fun a b => snd b <= snd a) out.

Definition state_data (df : DataFrame) (out : list (string * Z)) : Prop :=
  sort_values_descending (category_data State df) out.

(** [range_color=(0, map_data['Total'].max())]. *)
Definition range_color (df : DataFrame) : Z * option Z :=
  (0, series_max (map snd (map_data df))).

(** ** Download links (lines 123-133) *)

Module Base64.

Definition table_b2a : string :=
  "ABCDEFGHIJKLMNOPQRSTUVWXYZabcdefghijklmnopqrstuvwxyz0123456789+/".

Definition pad : ascii := "="%char.

(** The character of a six-bit group, most significant bit first. *)
Definition b2a (b5 b4 b3 b2 b1 b0 : bool) : ascii :=
  match String.get (nat_of_ascii (Ascii b0 b1 b2 b3 b4 b5 false false)) table_b2a with
  | Some c => c
  | None => pad
  end.

(** [base64.b64encode]: three bytes give four characters; a last group of
    one or two bytes is filled with zero bits and padded with "=". *)
Fixpoint b64encode (s : string) : string :=
  match s with
  | EmptyString => EmptyString
  | String (Ascii x0 x1 x2 x3 x4 x5 x6 x7) EmptyString =>
      String (b2a x7 x6 x5 x4 x3 x2)
        (String (b2a x1 x0 false false false false)
           (String pad (String pad EmptyString)))
  | String (Ascii x0 x1 x2 x3 x4 x5 x6 x7)
      (String (Ascii y0 y1 y2 y3 y4 y5 y6 y7) EmptyString) =>
      String (b2a x7 x6 x5 x4 x3 x2)
        (String (b2a x1 x0 y7 y6 y5 y4)
           (String (b2a y3 y2 y1 y0 false false)
              (String pad EmptyString)))
  | String (Ascii x0 x1 x2 x3 x4 x5 x6 x7)
      (String (Ascii y0 y1 y2 y3 y4 y5 y6 y7)
         (String (Ascii z0 z1 z2 z3 z4 z5 z6 z7) s')) =>
      String (b2a x7 x6 x5 x4 x3 x2)
        (String (b2a x1 x0 y7 y6 y5 y4)
           (String (b2a y3 y2 y1 y0 z7 z6)
              (String (b2a z5 z4 z3 z2 z1 z0) (b64encode s'))))
  end.

(** The reader's side (RFC 4648), used to state what a link carries. *)
Fixpoint index_from (n : nat) (c : ascii) (t : string) : option nat :=
  match t with
  | EmptyString => None
  | String c' t' => if Ascii.eqb c c' then Some n else index_from (S n) c t'
  end.

Definition a2b (c : ascii) : option ascii :=
  option_map ascii_of_nat (index_from 0 c table_b2a).

Fixpoint b64decode (s : string) : option string :=
  match s with
  | EmptyString => Some EmptyString
  | String a (String b (String c (String d s'))) =>
      match a2b a, a2b b with
      | Some (Ascii a0 a1 a2 a3 a4 a5 _ _), Some (Ascii b0 b1 b2 b3 b4 b5 _ _) =>
          let x := Ascii b4 b5 a0 a1 a2 a3 a4 a5 in
          if Ascii.eqb d pad then
            match s' with
            | EmptyString =>
                if Ascii.eqb c pad then Some (String x EmptyString)
                else
                  match a2b c with
                  | Some (Ascii c0 c1 c2 c3 c4 c5 _ _) =>
                      Some (String x (String (Ascii c2 c3 c4 c5 b0 b1 b2 b3) EmptyString))
                  | None => None
                  end
            | _ => None
            end
          else
            match a2b c, a2b d, b64decode s' with
            | Some (Ascii c0 c1 c2 c3 c4 c5 _ _),
              Some (Ascii d0 d1 d2 d3 d4 d5 _ _), Some t =>
                Some (String x
                        (String (Ascii c2 c3 c4 c5 b0 b1 b2 b3)
                           (String (Ascii d0 d1 d2 d3 d4 d5 c0 c1) t)))
            | _, _, _ => None
            end
      | _, _ => None
      end
  | _ => None
  end.

End Base64.

Definition dquote : string := String "034"%char EmptyString.

(** [get_csv_download_link] from the bytes [df.to_csv(index=False).encode()]
    on: base64 text inside a fixed anchor element. *)
Definition get_csv_download_link (csv : string) : string :=
  ("<a href=" ++ dquote ++ "data:file/csv;base64," ++ Base64.b64encode csv
   ++ dquote ++ " download=" ++ dquote ++ "filtered_data.csv" ++ dquote
   ++ ">Download CSV</a>")%string.

(** [get_plot_download_link] from the bytes of the chart's HTML on. *)
Definition get_plot_download_link (html title : string) : string :=
  ("<a href=" ++ dquote ++ "data:text/html;base64," ++ Base64.b64encode html
   ++ dquote ++ " download=" ++ dquote ++ title ++ ".html" ++ dquote
   ++ ">Download Chart</a>")%string.

(** How a reader takes an attribute value out of such a link: the text
    between [opening] and the next double quote. *)
Fixpoint until_dquote (s : string) : string :=
  match s with
  | EmptyString => EmptyString
  | String c s' => if Ascii.eqb c "034"%char then EmptyString else String c (until_dquote s')
  end.

Fixpoint strip_prefix (p s : string) : option string :=
  match p, s with
  | EmptyString, _ => Some s
  | String a p', String b s' => if Ascii.eqb a b then strip_prefix p' s' else None
  | _, EmptyString => None
  end.

Definition link_payload (opening link : string) : option string :=
  match strip_prefix opening link with
  | Some rest => Base64.b64decode (until_dquote rest)
  | None => None
  end.

(** ** Relations between two selections *)

(** [narrow] selects no more than [wide]: every list is included in the
    other's and the year range lies inside the other's. *)
Definition narrows (narrow wide : FilterSpec) : Prop :=
  incl (selected_states narrow) (selected_states wide)
  /\ fst (selected_years wide) <= fst (selected_years narrow)
  /\ snd (selected_years narrow) <= snd (selected_years wide)
  /\ incl (selected_type narrow) (selected_type wide)
  /\ incl (selected_gender narrow) (selected_gender wide)
  /\ incl (selected_age_group narrow) (selected_age_group wide).

(** ** The Total Cases text (line 151) *)

(** [str(n)] of an integer. *)
Definition str_int (z : Z) : string :=
  DecimalString.NilZero.string_of_int (Z.to_int z).

(** The grouping of the format specifier [","]: a comma follows a digit
    when the digits still to come are a positive multiple of three. *)
Fixpoint insert_commas (digits : string) : string :=
  match digits with
  | EmptyString => EmptyString
  | String d rest =>
      String d
        (if (negb (Nat.eqb (String.length rest) 0)
             && Nat.eqb (String.length rest mod 3) 0)%bool
         then String ","%char (insert_commas rest)
         else insert_commas rest)
  end.

(** [f"{n:,}"]: the sign, then the grouped digits. *)
Definition format_thousands (z : Z) : string :=
  match str_int z with
  | String c digits =>
      if Ascii.eqb c "-"%char then String c (insert_commas digits)
      else insert_commas (String c digits)
  | EmptyString => EmptyString
  end.

Definition total_cases_text (df : DataFrame) : string :=
  format_thousands (total_cases df).

(** Reading such a text back: [s.replace(",", "")] and [s.split(",")]. *)
Fixpoint remove_commas (s : string) : string :=
  match s with
  | EmptyString => EmptyString
  | String c s' =>
      if Ascii.eqb c ","%char then remove_commas s' else String c (remove_commas s')
  end.

Fixpoint split_commas (s : string) : list string :=
  match s with
  | EmptyString => [EmptyString]
  | String c s' =>
      if Ascii.eqb c ","%char then EmptyString :: split_commas s'
      else
        match split_commas s' with
        | g :: gs => String c g :: gs
        | [] => [String c EmptyString]
        end
  end.

Definition is_digit (c : ascii) : bool :=
  (Nat.leb 48 (nat_of_ascii c) && Nat.leb (nat_of_ascii c) 57)%bool.

Fixpoint all_digits (s : string) : bool :=
  match s with
  | EmptyString => true
  | String c s' => (is_digit c && all_digits s')%bool
  end.

Definition unsigned_part (s : string) : string :=
  match s with
  | String c s' => if Ascii.eqb c "-"%char then s' else s
  | EmptyString => EmptyString
  end.

(** ** Text as Unicode code points

    [str.title] works on code points, and outside ASCII its case mappings
    can be longer than one code point.  This second model of the text
    rules of [load_data] takes a text as the list of its code points, with
    the rows of the Unicode character database that the texts named below
    use: the ASCII letters; U+01F0 (Latin small letter j with caron), a
    cased letter whose title-case mapping is the two code points U+004A
    U+030C; and U+030C (combining caron), which is not cased and has no
    case mapping.  On ASCII text it is the byte-level model above
    ([str_title_encode]); statements on it are made for ASCII text and
    for texts of these characters only. *)

Module Unicode.

Definition text : Type := list N.

Definition is_upper (c : N) : bool := ((65 <=? c) && (c <=? 90))%N.

Definition is_lower (c : N) : bool := ((97 <=? c) && (c <=? 122))%N.

Definition is_cased (c : N) : bool :=
  (is_upper c || is_lower c || (c =? 496)%N)%bool.

Definition to_lower (c : N) : text :=
  if is_upper c then [(c + 32)%N] else [c].

Definition to_title (c : N) : text :=
  if is_lower c then [(c - 32)%N]
  else if (c =? 496)%N then [74%N; 780%N]
  else [c].

(** The loop of [str.title], with mappings of any length. *)
Fixpoint title_from (previous_is_cased : bool) (t : text) : text :=
  match t with
  | [] => []
  | c :: t' =>
      (if previous_is_cased then to_lower c else to_title c)
      ++ title_from (is_cased c) t'
  end.

Definition str_title (t : text) : text := title_from false t.

Fixpoint eqb (a b : text) : bool :=
  match a, b with
  | [], [] => true
  | x :: a', y :: b' => ((x =? y)%N && eqb a' b')%bool
  | _, _ => false
  end.

Definition isin (s : text) (values : list text) : bool :=
  existsb (eqb s) values.

(** The code points of an ASCII string. *)
Definition encode (s : string) : text :=
  map N_of_ascii (list_ascii_of_string s).

Definition states_to_remove : list text := map encode states_to_remove.

Record Row : Type := mkRow {
  State : text;
  Type_ : text;
  Gender : text;
  Age_group : text;
  Year : Z;
  Total : Z
}.

Definition title_columns (r : Row) : Row :=
  {| State := str_title (State r);
     Type_ := str_title (Type_ r);
     Gender := str_title (Gender r);
     Age_group := Age_group r;
     Year := Year r;
     Total := Total r |}.

Definition load_data (df : list Row) : list Row :=
  let df := map title_columns df in
  filter (fun r => negb (isin (State r) states_to_remove)) df.

(** ASCII text, and tables whose three title-cased columns are ASCII. *)
Definition ascii_text (t : text) : Prop := Forall (fun c => (c < 128)%N) t.

Definition ascii_row (r : Row) : Prop :=
  ascii_text (State r) /\ ascii_text (Type_ r) /\ ascii_text (Gender r).

Definition ascii_table (df : list Row) : Prop := Forall ascii_row df.

End Unicode.

(** The table whose single State is U+01F0 U+0061: j with caron, then a. *)
Definition j_caron_table : list Unicode.Row :=
  [ Unicode.mkRow [496%N; 97%N] (Unicode.encode "Causes") (Unicode.encode "Male")
                  (Unicode.encode "15-29") 2019 10 ].

(** * Properties *)

Example title_all_india : str_title "total (all india)" = "Total (All India)".
Proof. reflexivity. Qed.

Example title_states : str_title "TOTAL (STATES)" = "Total (States)".
Proof. reflexivity. Qed.

Example title_uts : str_title "Total (UTs)" = "Total (Uts)".
Proof. reflexivity. Qed.

Example title_apostrophe : str_title "they're 3rd o'neil" = "They'Re 3Rd O'Neil".
Proof. reflexivity. Qed.

Example strip_example : str_strip "  a b  " = "a b".
Proof. reflexivity. Qed.

(** ** Characters *)

Ltac ascii_cases c := destruct c as [[] [] [] [] [] [] [] []]; reflexivity.

Lemma to_lower_idem (c : ascii) : to_lower (to_lower c) = to_lower c.
Proof. ascii_cases c. Qed.

Lemma to_title_idem (c : ascii) : to_title (to_title c) = to_title c.
Proof. ascii_cases c. Qed.

Lemma to_lower_title (c : ascii) : to_lower (to_title c) = to_lower c.
Proof. ascii_cases c. Qed.

Lemma to_title_lower (c : ascii) : to_title (to_lower c) = to_title c.
Proof. ascii_cases c. Qed.

Lemma is_cased_lower (c : ascii) : is_cased (to_lower c) = is_cased c.
Proof. ascii_cases c. Qed.

Lemma is_cased_title (c : ascii) : is_cased (to_title c) = is_cased c.
Proof. ascii_cases c. Qed.

(** ** [str_title] *)

Lemma title_from_idem (s : string) :
  forall b, title_from b (title_from b s) = title_from b s.
Proof.
  induction s as [|c s IH]; intro b; simpl; [reflexivity|].
  destruct b.
  - rewrite to_lower_idem, is_cased_lower, IH. reflexivity.
  - rewrite to_title_idem, is_cased_title, IH. reflexivity.
Qed.

Lemma str_title_idem (s : string) : str_title (str_title s) = str_title s.
Proof. apply title_from_idem. Qed.

Lemma title_from_lower (s : string) :
  forall b, title_from b (str_lower s) = title_from b s.
Proof.
  induction s as [|c s IH]; intro b; simpl; [reflexivity|].
  rewrite is_cased_lower, IH.
  destruct b; [rewrite to_lower_idem | rewrite to_title_lower]; reflexivity.
Qed.

Lemma lower_title_from (s : string) :
  forall b, str_lower (title_from b s) = str_lower s.
Proof.
  induction s as [|c s IH]; intro b; simpl; [reflexivity|].
  rewrite IH.
  destruct b; [rewrite to_lower_idem | rewrite to_lower_title]; reflexivity.
Qed.

Lemma str_title_eq_iff (s1 s2 : string) :
  str_title s1 = str_title s2 <-> str_lower s1 = str_lower s2.
Proof.
  unfold str_title. split; intro H.
  - rewrite <- (lower_title_from s1 false), <- (lower_title_from s2 false).
    now rewrite H.
  - rewrite <- (title_from_lower s1), <- (title_from_lower s2).
    now rewrite H.
Qed.

(** ** [load_data] *)

Lemma isin_In (s : string) (l : list string) : isin s l = true <-> In s l.
Proof.
  unfold isin. rewrite existsb_exists. split.
  - intros [x [Hin Heq]]. apply String.eqb_eq in Heq. now subst.
  - intro Hin. exists s. split; [assumption | apply String.eqb_refl].
Qed.

Lemma isin_false (s : string) (l : list string) : isin s l = false <-> ~ In s l.
Proof.
  rewrite <- isin_In. destruct (isin s l); split; intro H; easy.
Qed.

Lemma filter_map_comm {A B : Type} (f : A -> B) (p : B -> bool) (l : list A) :
  filter p (map f l) = map f (filter (fun a => p (f a)) l).
Proof.
  induction l as [|a l IH]; simpl; [reflexivity|].
  destruct (p (f a)); simpl; now rewrite IH.
Qed.

Lemma load_data_retained (df : DataFrame) :
  load_data df = map title_columns (retained df).
Proof. unfold load_data, retained. now rewrite filter_map_comm. Qed.

Lemma title_columns_idem (r : Row) :
  title_columns (title_columns r) = title_columns r.
Proof.
  destruct r; unfold title_columns; simpl.
  now rewrite !str_title_idem.
Qed.

Lemma filter_idem {A : Type} (p : A -> bool) (l : list A) :
  filter p (filter p l) = filter p l.
Proof.
  induction l as [|a l IH]; simpl; [reflexivity|].
  destruct (p a) eqn:E; simpl; [rewrite E; f_equal |]; exact IH.
Qed.

Lemma filter_subseq {A : Type} (p : A -> bool) (l : list A) :
  subseq (filter p l) l.
Proof.
  induction l as [|a l IH]; simpl; [constructor|].
  destruct (p a); now constructor.
Qed.

Lemma Forall2_map_r {A B : Type} (R : A -> B -> Prop) (f : A -> B) (l : list A) :
  (forall a, R a (f a)) -> Forall2 R l (map f l).
Proof. intro H. induction l; simpl; constructor; auto. Qed.

(** C4, as the claim states it, fails: a State that is a reserved label
    only after trimming is not matched, and its record stays in the
    output. *)
Lemma load_data_keeps_padded_reserved :
  let raw := mkRow "Total (States) " "Causes" "Male" "15-29" 2019 9999 in
  In (spec_normalize_text (State raw)) states_to_remove
  /\ load_data [mkRow "Kerala" "Causes" "Male" "15-29" 2019 10; raw]
     = [mkRow "Kerala" "Causes" "Male" "15-29" 2019 10; raw].
Proof. split; [right; left; reflexivity | reflexivity]. Qed.

(** C4, amended: a record whose State is one of the three reserved
    total labels after title-casing alone, whatever its casing was, is
    absent from the output of [load_data]: deleting it from the input
    leaves the output as it is, and no output row carries a reserved
    label. *)
Theorem load_data_drops_reserved (pre post : DataFrame) (raw : Row) :
  In (str_title (State raw)) states_to_remove ->
  load_data (pre ++ raw :: post) = load_data (pre ++ post)
  /\ forall out, In out (load_data (pre ++ raw :: post)) ->
       ~ In (State out) states_to_remove.
Proof.
  intro Hres. split.
  - rewrite !load_data_retained. unfold retained.
    rewrite !filter_app. cbn [filter].
    apply isin_In in Hres. now rewrite Hres.
  - intros out Hout. unfold load_data in Hout.
    apply filter_In in Hout. destruct Hout as [_ Hkeep].
    apply negb_true_iff in Hkeep. now apply isin_false.
Qed.

(** The three casings named by the specification, between two kept rows. *)
Lemma load_data_drops_reserved_witness :
  let kerala := mkRow "Kerala" "Causes" "male" "15-29" 2019 10 in
  let goa := mkRow "Goa" "Causes" "Female" "30-44" 2020 7 in
  (forall raw,
      In raw [ mkRow "total (all india)" "Causes" "Male" "15-29" 2019 9999;
               mkRow "TOTAL (STATES)" "Causes" "Male" "15-29" 2019 9999;
               mkRow "Total (UTs)" "Causes" "Male" "15-29" 2019 9999 ] ->
      load_data ([kerala] ++ raw :: [goa]) = load_data ([kerala] ++ [goa]))
  /\ load_data ([kerala] ++ [goa])
     = [ mkRow "Kerala" "Causes" "Male" "15-29" 2019 10;
         mkRow "Goa" "Causes" "Female" "30-44" 2020 7 ].
Proof.
  intros kerala goa. split; [| reflexivity].
  intros raw [H | [H | [H | []]]]; subst raw;
    apply (load_data_drops_reserved [kerala] [goa]); simpl; tauto.
Defined.



(** On the byte-level model, where every character outside the ASCII
    letters is uncased, normalizing twice is normalizing once. *)
Lemma load_data_twice (df : DataFrame) :
  load_data (load_data df) = load_data df.
Proof.
  unfold load_data at 1. cbv zeta.
  assert (Hfix : map title_columns (load_data df) = load_data df).
  { rewrite load_data_retained, map_map.
    apply map_ext. intro r. apply title_columns_idem. }
  rewrite Hfix. unfold load_data. cbv zeta. apply filter_idem.
Qed.

(** ** The filter mask *)

Lemma mask_selected (spec : FilterSpec) (r : Row) :
  mask spec r = true <-> selected spec r.
Proof.
  unfold mask, selected, between.
  rewrite !andb_true_iff, !isin_In, !Z.leb_le. tauto.
Qed.

(** C3: the filter keeps a row exactly when all five conditions hold, at
    the row's own place in the table; an empty selection list in any of
    the four multiselects leaves no row. *)
Theorem filtered_df_selected :
  (forall df spec r, In r (filtered_df df spec) <-> In r df /\ selected spec r)
  /\ (forall pre post spec r,
        (selected spec r ->
         filtered_df (pre ++ r :: post) spec
         = filtered_df pre spec ++ r :: filtered_df post spec)
        /\ (~ selected spec r ->
            filtered_df (pre ++ r :: post) spec
            = filtered_df pre spec ++ filtered_df post spec))
  /\ (forall df years types genders ages,
        filtered_df df (mkFilterSpec [] years types genders ages) = [])
  /\ (forall df states years genders ages,
        filtered_df df (mkFilterSpec states years [] genders ages) = [])
  /\ (forall df states years types ages,
        filtered_df df (mkFilterSpec states years types [] ages) = [])
  /\ (forall df states years types genders,
        filtered_df df (mkFilterSpec states years types genders []) = []).
Proof.
  assert (Hnone : forall df spec, (forall r, ~ selected spec r) ->
                                  filtered_df df spec = []).
  { intros df spec Hno. unfold filtered_df.
    induction df as [|r df IH]; simpl; [reflexivity|].
    destruct (mask spec r) eqn:E; [| exact IH].
    apply mask_selected in E. now apply Hno in E. }
  split; [| split; [| repeat split]].
  - intros df spec r. unfold filtered_df.
    rewrite filter_In, mask_selected. tauto.
  - intros pre post spec r. unfold filtered_df.
    rewrite filter_app. cbn [filter]. split; intro H.
    + apply mask_selected in H. now rewrite H.
    + destruct (mask spec r) eqn:E; [| reflexivity].
      apply mask_selected in E. contradiction.
  - intros. apply Hnone. intros r (H & _). exact H.
  - intros. apply Hnone. intros r (_ & _ & H & _). exact H.
  - intros. apply Hnone. intros r (_ & _ & _ & H & _). exact H.
  - intros. apply Hnone. intros r (_ & _ & _ & _ & H). exact H.
Qed.

(** ** int64 arithmetic *)

Lemma wrap64_add_l (a b : Z) : wrap64 (wrap64 a + b) = wrap64 (a + b).
Proof.
  unfold wrap64. f_equal.
  replace ((a + 2 ^ 63) mod 2 ^ 64 - 2 ^ 63 + b + 2 ^ 63)
    with ((a + 2 ^ 63) mod 2 ^ 64 + b) by lia.
  rewrite Zplus_mod_idemp_l. f_equal. lia.
Qed.

Lemma wrap64_add_r (a b : Z) : wrap64 (a + wrap64 b) = wrap64 (a + b).
Proof. rewrite (Z.add_comm a), wrap64_add_l. f_equal. lia. Qed.

Lemma wrap64_small (a : Z) : - 2 ^ 63 <= a < 2 ^ 63 -> wrap64 a = a.
Proof.
  intro H. unfold wrap64.
  change (2 ^ 64) with (2 * 2 ^ 63). rewrite Z.mod_small; lia.
Qed.

Lemma fold_add64 (vs : list Z) :
  forall a, fold_left add64 vs (wrap64 a) = wrap64 (a + sumZ vs).
Proof.
  induction vs as [|v vs IH]; intro a; simpl.
  - now rewrite Z.add_0_r.
  - unfold add64 at 2. rewrite wrap64_add_l, IH. f_equal. lia.
Qed.

Lemma sum64_sumZ (vs : list Z) : sum64 vs = wrap64 (sumZ vs).
Proof.
  unfold sum64. change 0 with (wrap64 0) at 1. now rewrite fold_add64.
Qed.

(** Without overflow the int64 sum is the sum. *)
Lemma sum64_exact (vs : list Z) :
  - 2 ^ 63 <= sumZ vs < 2 ^ 63 -> sum64 vs = sumZ vs.
Proof. intro H. rewrite sum64_sumZ. now apply wrap64_small. Qed.

Lemma sumZ_app (l1 l2 : list Z) : sumZ (l1 ++ l2) = sumZ l1 + sumZ l2.
Proof. induction l1 as [|a l1 IH]; simpl; [reflexivity | rewrite IH; lia]. Qed.

Lemma wrap64_sumZ_map {A : Type} (f : A -> Z) (l : list A) :
  wrap64 (sumZ (map (fun a => wrap64 (f a)) l)) = wrap64 (sumZ (map f l)).
Proof.
  induction l as [|a l IH]; simpl; [reflexivity|].
  rewrite wrap64_add_l, <- wrap64_add_r, IH, wrap64_add_r. reflexivity.
Qed.

(** ** groupby *)

Section GroupBy.

Context {K : Type} (cmp : K -> K -> comparison) (key : Row -> K).

Hypothesis cmp_eq : forall a b, cmp a b = Eq <-> a = b.
Hypothesis cmp_antisym : forall a b, cmp a b = CompOpp (cmp b a).
Hypothesis cmp_trans : forall a b c, cmp a b = Lt -> cmp b c = Lt -> cmp a c = Lt.

Lemma cmp_refl (a : K) : cmp a a = Eq.
Proof. now apply cmp_eq. Qed.

Lemma cmp_gt_lt (a b : K) : cmp a b = Gt -> cmp b a = Lt.
Proof. intro H. rewrite cmp_antisym, H. reflexivity. Qed.

Lemma values_push (g : Group) (v : Z) : values (push g v) = values g ++ [v].
Proof. reflexivity. Qed.

Lemma cells_cons (k : K) (g : Group) (gs : list (K * Group)) :
  sumZ (cells ((k, g) :: gs)) = sumZ (values g) + sumZ (cells gs).
Proof. unfold cells. cbn [map List.concat snd]. apply sumZ_app. Qed.

(** Every cell that enters a grouping stays in it, once. *)
Lemma cells_group_insert (k : K) (v : Z) (gs : list (K * Group)) :
  sumZ (cells (group_insert cmp k v gs)) = sumZ (cells gs) + v.
Proof.
  induction gs as [|[k1 g1] gs IH]; cbn [group_insert].
  - rewrite cells_cons. simpl. lia.
  - destruct (cmp k k1); rewrite !cells_cons.
    + rewrite values_push, sumZ_app. simpl. lia.
    + simpl. lia.
    + rewrite IH. lia.
Qed.

Lemma cells_groupby (df : DataFrame) :
  sumZ (cells (groupby cmp key df)) = sumZ (map Total df).
Proof.
  unfold groupby.
  assert (H : forall gs,
             sumZ (cells (fold_left
                            (fun gs r => group_insert cmp (key r) (Total r) gs)
                            df gs))
             = sumZ (cells gs) + sumZ (map Total df)).
  { induction df as [|r df IH]; intro gs; simpl; [lia|].
    rewrite IH, cells_group_insert. lia. }
  rewrite H. reflexivity.
Qed.

Lemma keys_group_insert (k : K) (v : Z) (gs : list (K * Group)) (x : K) :
  In x (map fst (group_insert cmp k v gs)) -> x = k \/ In x (map fst gs).
Proof.
  induction gs as [|[k1 g1] gs IH]; simpl.
  - intros [H | []]. now left.
  - destruct (cmp k k1); simpl.
    + tauto.
    + intros [H | H]; auto.
    + intros [H | H]; auto. apply IH in H. tauto.
Qed.

Lemma ascending_group_insert (k : K) (v : Z) (gs : list (K * Group)) :
  ascending cmp gs -> ascending cmp (group_insert cmp k v gs).
Proof.
  unfold ascending.
  induction gs as [|[k1 g1] gs IH]; simpl; intro Hs.
  - repeat constructor.
  - inversion Hs as [| ? ? Htl Hhd]; subst.
    destruct (cmp k k1) eqn:E; simpl.
    + exact Hs.
    + constructor; [exact Hs|].
      constructor; [exact E|].
      eapply Forall_impl; [| exact Hhd]. intros a Ha. eauto.
    + constructor; [now apply IH|].
      apply Forall_forall. intros x Hx.
      apply keys_group_insert in Hx. destruct Hx as [-> | Hx].
      * now apply cmp_gt_lt.
      * rewrite Forall_forall in Hhd. now apply Hhd.
Qed.

Lemma get_In (k : K) (g : Group) (gs : list (K * Group)) :
  get cmp k gs = Some g -> In (k, g) gs.
Proof.
  induction gs as [|[k1 g1] gs IH]; simpl; [discriminate|].
  destruct (cmp k k1) eqn:E; auto.
  apply cmp_eq in E. subst. intro H. inversion H. now left.
Qed.

Lemma In_get (k : K) (g : Group) (gs : list (K * Group)) :
  ascending cmp gs -> In (k, g) gs -> get cmp k gs = Some g.
Proof.
  unfold ascending.
  induction gs as [|[k1 g1] gs IH]; simpl; intros Hs Hin; [contradiction|].
  inversion Hs as [| ? ? Htl Hhd]; subst.
  destruct Hin as [Heq | Hin].
  - inversion Heq; subst. now rewrite cmp_refl.
  - rewrite Forall_forall in Hhd.
    assert (Hlt : cmp k1 k = Lt) by (apply Hhd; now apply (in_map fst) in Hin).
    rewrite cmp_antisym, Hlt. simpl. now apply IH.
Qed.

Lemma get_below (k k1 : K) (gs : list (K * Group)) :
  cmp k k1 = Lt ->
  Forall (fun b => cmp k1 b = Lt) (map fst gs) ->
  get cmp k gs = None.
Proof.
  intros Hlt Hall.
  destruct (get cmp k gs) as [g|] eqn:E; [| reflexivity].
  apply get_In in E. apply (in_map fst) in E. simpl in E.
  rewrite Forall_forall in Hall. apply Hall in E.
  pose proof (cmp_trans _ _ _ Hlt E) as Hkk.
  rewrite cmp_refl in Hkk. discriminate.
Qed.

Lemma get_group_insert (k k' : K) (v : Z) (gs : list (K * Group)) :
  ascending cmp gs ->
  get cmp k' (group_insert cmp k v gs)
  = match cmp k' k with
    | Eq => Some (match get cmp k gs with
                  | Some g => push g v
                  | None => mkGroup v []
                  end)
    | _ => get cmp k' gs
    end.
Proof.
  unfold ascending.
  induction gs as [|[k1 g1] gs IH]; simpl; intro Hs.
  - destruct (cmp k' k); reflexivity.
  - inversion Hs as [| ? ? Htl Hhd]; subst.
    destruct (cmp k k1) eqn:E; simpl.
    + apply cmp_eq in E. subst k1. destruct (cmp k' k); reflexivity.
    + rewrite (get_below k k1 gs E Hhd). reflexivity.
    + rewrite (IH Htl).
      destruct (cmp k' k1) eqn:E1; try reflexivity.
      apply cmp_eq in E1. subst k'.
      rewrite (cmp_gt_lt _ _ E). reflexivity.
Qed.

Lemma keyed_sym (k : K) (r : Row) :
  keyed cmp key k r = match cmp k (key r) with Eq => true | _ => false end.
Proof.
  unfold keyed. rewrite (cmp_antisym k (key r)).
  destruct (cmp (key r) k); reflexivity.
Qed.

Lemma groupby_invariant (df : DataFrame) :
  forall (gs : list (K * Group)) (seen : DataFrame),
    ascending cmp gs ->
    (forall k, values_of cmp k gs = map Total (filter (keyed cmp key k) seen)) ->
    let gs' := fold_left (fun gs r => group_insert cmp (key r) (Total r) gs) df gs in
    ascending cmp gs'
    /\ forall k, values_of cmp k gs' = map Total (filter (keyed cmp key k) (seen ++ df)).
Proof.
  induction df as [|r df IH]; intros gs seen Hs Hv; simpl.
  - rewrite app_nil_r. auto.
  - replace (seen ++ r :: df) with ((seen ++ [r]) ++ df)
      by (rewrite <- app_assoc; reflexivity).
    apply IH; [now apply ascending_group_insert|].
    intro k. unfold values_of. rewrite (get_group_insert _ _ _ _ Hs).
    rewrite filter_app, map_app. cbn [filter]. rewrite keyed_sym.
    destruct (cmp k (key r)) eqn:E.
    + apply cmp_eq in E. subst k. rewrite <- Hv. unfold values_of.
      destruct (get cmp (key r) gs); reflexivity.
    + rewrite app_nil_r. apply Hv.
    + rewrite app_nil_r. apply Hv.
Qed.

Lemma groupby_ascending (df : DataFrame) : ascending cmp (groupby cmp key df).
Proof.
  apply (groupby_invariant df [] []); [constructor | reflexivity].
Qed.

Lemma groupby_values (df : DataFrame) (k : K) :
  values_of cmp k (groupby cmp key df) = map Total (filter (keyed cmp key k) df).
Proof.
  apply (groupby_invariant df [] []); [constructor | reflexivity].
Qed.

(** A group of the grouping holds the cells of the rows with its key. *)
Lemma groupby_In (df : DataFrame) (k : K) (g : Group) :
  In (k, g) (groupby cmp key df) ->
  values g = map Total (filter (keyed cmp key k) df).
Proof.
  intro Hin. rewrite <- groupby_values. unfold values_of.
  now rewrite (In_get k g _ (groupby_ascending df) Hin).
Qed.

(** Every key of the table has its group. *)
Lemma groupby_has_key (df : DataFrame) (r : Row) :
  In r df -> exists g, In (key r, g) (groupby cmp key df).
Proof.
  intro Hin.
  pose proof (groupby_values df (key r)) as Hv. unfold values_of in Hv.
  destruct (get cmp (key r) (groupby cmp key df)) as [g|] eqn:E.
  - exists g. now apply get_In.
  - assert (Hr : In r (filter (keyed cmp key (key r)) df)).
    { apply filter_In. split; [assumption|]. unfold keyed. now rewrite cmp_refl. }
    destruct (filter (keyed cmp key (key r)) df); [contradiction | discriminate].
Qed.

(** Every group's key is the key of some row. *)
Lemma groupby_key_of_row (df : DataFrame) (k : K) (g : Group) :
  In (k, g) (groupby cmp key df) -> In k (map key df).
Proof.
  intro Hin. apply groupby_In in Hin.
  destruct (filter (keyed cmp key k) df) as [|r l] eqn:E; [discriminate|].
  assert (Hr : In r (filter (keyed cmp key k) df)) by (rewrite E; now left).
  apply filter_In in Hr. destruct Hr as [Hr Hk].
  unfold keyed in Hk. destruct (cmp (key r) k) eqn:Ec; try discriminate.
  apply cmp_eq in Ec. subst k. now apply in_map.
Qed.

End GroupBy.

(** ** The two key orders in use *)

Lemma Z_cmp_eq (a b : Z) : (a ?= b) = Eq <-> a = b.
Proof. apply Z.compare_eq_iff. Qed.

Lemma Z_cmp_antisym (a b : Z) : (a ?= b) = CompOpp (b ?= a).
Proof. apply Z.compare_antisym. Qed.

Lemma Z_cmp_trans (a b c : Z) : (a ?= b) = Lt -> (b ?= c) = Lt -> (a ?= c) = Lt.
Proof. rewrite !Z.compare_lt_iff. lia. Qed.

Lemma string_cmp_trans (a b c : string) :
  String.compare a b = Lt -> String.compare b c = Lt -> String.compare a c = Lt.
Proof.
  intros H1 H2. apply String_as_OT.cmp_lt.
  apply String_as_OT.cmp_lt in H1. apply String_as_OT.cmp_lt in H2.
  eapply String_as_OT.lt_trans; eassumption.
Qed.

Lemma string_eqb_compare (a b : string) :
  String.eqb a b = match String.compare a b with Eq => true | _ => false end.
Proof.
  destruct (String.compare a b) eqn:E.
  - apply String_as_OT.cmp_eq in E. subst. apply String.eqb_refl.
  - apply String.eqb_neq. intros ->.
    assert (H : String.compare b b = Eq) by now apply String_as_OT.cmp_eq.
    congruence.
  - apply String.eqb_neq. intros ->.
    assert (H : String.compare b b = Eq) by now apply String_as_OT.cmp_eq.
    congruence.
Qed.

(** ** Sums over the aggregates *)

Lemma agg_sum_keys {K : Type} (gs : list (K * Group)) :
  map fst (agg_sum gs) = map fst gs.
Proof. unfold agg_sum. rewrite map_map. reflexivity. Qed.

Lemma sumZ_cells {K : Type} (gs : list (K * Group)) :
  sumZ (cells gs) = sumZ (map (fun kg => sumZ (values (snd kg))) gs).
Proof.
  unfold cells.
  induction gs as [|kg gs IH]; cbn [map List.concat]; [reflexivity|].
  rewrite sumZ_app, IH. reflexivity.
Qed.

Lemma sum64_agg_sum {K : Type} (gs : list (K * Group)) :
  sum64 (map snd (agg_sum gs)) = wrap64 (sumZ (cells gs)).
Proof.
  unfold agg_sum. rewrite map_map. cbn [snd].
  rewrite sum64_sumZ, sumZ_cells.
  rewrite (map_ext _ (fun kg => wrap64 (sumZ (values (snd kg)))))
    by (intro; apply sum64_sumZ).
  apply (wrap64_sumZ_map (fun kg : K * Group => sumZ (values (snd kg)))).
Qed.

(** The by-Year aggregate lists each year once, in ascending order. *)
Lemma yearly_data_ascending (df : DataFrame) :
  StronglySorted Z.lt (map fst (yearly_data df)).
Proof.
  unfold yearly_data. rewrite agg_sum_keys.
  pose proof (groupby_ascending Z.compare Year Z_cmp_eq Z_cmp_antisym
                Z_cmp_trans df) as H.
  exact H.
Qed.

(** C8: the Total column of the by-Year aggregate sums to the Total
    column of the table it was computed from. *)
Theorem yearly_data_conservative (df : DataFrame) :
  sum64 (map snd (yearly_data df)) = total_cases df.
Proof.
  unfold yearly_data, total_cases.
  rewrite sum64_agg_sum, cells_groupby, sum64_sumZ. reflexivity.
Qed.

(** ** idxmax *)

Lemma idxmax_from_first_max {K : Type} (s : list (K * Z)) :
  forall best, exists s1 s2 k v,
    best :: s = s1 ++ (k, v) :: s2
    /\ idxmax_from best s = k
    /\ Forall (fun kv => snd kv < v) s1
    /\ Forall (fun kv => snd kv <= v) s2.
Proof.
  induction s as [|kv s IH]; intro best; simpl.
  - exists [], [], (fst best), (snd best). destruct best. simpl. auto.
  - destruct (snd best <? snd kv) eqn:E.
    + apply Z.ltb_lt in E.
      destruct (IH kv) as (s1 & s2 & k & v & Heq & Hk & H1 & H2).
      exists (best :: s1), s2, k, v. repeat split; auto.
      * simpl. now rewrite Heq.
      * constructor; [| exact H1].
        assert (Hkv : snd kv <= v).
        { assert (Hin : In kv (s1 ++ (k, v) :: s2)) by (rewrite <- Heq; now left).
          apply in_app_or in Hin. destruct Hin as [Hin | [Hin | Hin]].
          - rewrite Forall_forall in H1. apply H1 in Hin. lia.
          - subst kv. simpl. lia.
          - rewrite Forall_forall in H2. now apply H2. }
        lia.
    + apply Z.ltb_ge in E.
      destruct (IH best) as (s1 & s2 & k & v & Heq & Hk & H1 & H2).
      destruct s1 as [|b s1].
      * simpl in Heq. injection Heq as Hb Hs. subst best s.
        exists [], (kv :: s2), k, v. simpl in *. repeat split; auto.
      * simpl in Heq. injection Heq as Hb Hs. subst b s.
        exists (best :: kv :: s1), s2, k, v. repeat split; auto.
        inversion H1; subst.
        constructor; [assumption|]. constructor; [lia | assumption].
Qed.

(** ** The most affected state *)

Lemma StronglySorted_app_r {A : Type} (R : A -> A -> Prop) (l1 l2 : list A) :
  StronglySorted R (l1 ++ l2) -> StronglySorted R l2.
Proof.
  induction l1 as [|a l1 IH]; simpl; intro H; [exact H|].
  inversion H; subst. now apply IH.
Qed.

Lemma state_total_group (df : DataFrame) (k : string) (g : Group) :
  In (k, g) (groupby String.compare State df) ->
  sum64 (values g) = state_total k df.
Proof.
  intro Hin.
  rewrite (groupby_In String.compare State String_as_OT.cmp_eq
             String_as_OT.cmp_antisym string_cmp_trans df k g Hin).
  unfold state_total. do 2 f_equal.
  apply filter_ext. intro r. unfold keyed. symmetry. apply string_eqb_compare.
Qed.

Lemma agg_sum_state_total (df : DataFrame) (k : string) (v : Z) :
  In (k, v) (agg_sum (groupby String.compare State df)) ->
  v = state_total k df /\ In k (map State df).
Proof.
  unfold agg_sum. intro Hin. apply in_map_iff in Hin.
  destruct Hin as ([k0 g] & Heq & Hin). simpl in Heq.
  injection Heq as -> <-. split.
  - now apply state_total_group.
  - eapply (groupby_key_of_row String.compare State String_as_OT.cmp_eq
              String_as_OT.cmp_antisym string_cmp_trans); eassumption.
Qed.

Lemma state_in_agg_sum (df : DataFrame) (s : string) :
  In s (map State df) ->
  In (s, state_total s df) (agg_sum (groupby String.compare State df)).
Proof.
  intro Hin. apply in_map_iff in Hin. destruct Hin as (r & <- & Hr).
  destruct (groupby_has_key String.compare State String_as_OT.cmp_eq
              String_as_OT.cmp_antisym string_cmp_trans df r Hr) as [g Hg].
  unfold agg_sum. apply in_map_iff. exists (State r, g). split; [| exact Hg].
  simpl. f_equal. now apply state_total_group.
Qed.

(** C6: on a table with at least one row, the most affected state is a
    State of the table whose summed Total is maximal, and among the
    States that reach the maximum it is the least in string order. *)
Theorem most_affected_state_first_max (df : DataFrame) :
  df <> [] ->
  exists s,
    most_affected_state df = Ok s
    /\ In s (map State df)
    /\ (forall s', In s' (map State df) -> state_total s' df <= state_total s df)
    /\ (forall s', In s' (map State df) ->
                   state_total s' df = state_total s df ->
                   String.leb s s' = true).
Proof.
  intro Hne. unfold most_affected_state.
  pose proof (groupby_ascending String.compare State String_as_OT.cmp_eq
                String_as_OT.cmp_antisym string_cmp_trans df) as Hasc.
  unfold ascending in Hasc. rewrite <- agg_sum_keys in Hasc.
  pose proof (agg_sum_state_total df) as Hout.
  pose proof (state_in_agg_sum df) as Hin.
  destruct (agg_sum (groupby String.compare State df)) as [|kv s0] eqn:Eagg.
  { destruct df as [|r df]; [contradiction|].
    exfalso. apply (Hin (State r)). now left. }
  destruct (idxmax_from_first_max s0 kv) as (s1 & s2 & k & v & Heq & Hk & H1 & H2).
  rewrite Heq in Hasc, Hout, Hin.
  exists k. simpl. rewrite Hk.
  destruct (Hout k v) as [Hv Hkin]; [apply in_elt|]. subst v.
  split; [reflexivity|]. split; [exact Hkin|].
  rewrite Forall_forall in H1, H2.
  split.
  - intros s' Hs'. apply Hin in Hs'.
    apply in_app_or in Hs'. destruct Hs' as [Hs' | [Hs' | Hs']].
    + apply H1 in Hs'. simpl in Hs'. lia.
    + injection Hs' as <- _. lia.
    + apply H2 in Hs'. exact Hs'.
  - intros s' Hs' Htie. apply Hin in Hs'.
    apply in_app_or in Hs'. destruct Hs' as [Hs' | [Hs' | Hs']].
    + apply H1 in Hs'. simpl in Hs'. lia.
    + injection Hs' as <- _. unfold String.leb.
      assert (E : String.compare k k = Eq) by now apply String_as_OT.cmp_eq.
      now rewrite E.
    + rewrite map_app in Hasc. apply StronglySorted_app_r in Hasc.
      simpl in Hasc. apply StronglySorted_inv in Hasc. destruct Hasc as [_ Hall].
      rewrite Forall_forall in Hall.
      assert (E : String.compare k s' = Lt).
      { apply Hall. apply (in_map fst) in Hs'. exact Hs'. }
      unfold String.leb. now rewrite E.
Qed.

(** Three states, two of them tied at the maximum and listed in
    descending order in the table. *)
Lemma most_affected_state_first_max_witness :
  let df := [ mkRow "Punjab" "Causes" "Male" "15-29" 2019 30;
              mkRow "Goa" "Causes" "Male" "15-29" 2019 5;
              mkRow "Kerala" "Causes" "Male" "15-29" 2019 10;
              mkRow "Kerala" "Causes" "Female" "15-29" 2020 20 ] in
  most_affected_state df = Ok "Kerala"
  /\ exists s,
      most_affected_state df = Ok s
      /\ In s (map State df)
      /\ (forall s', In s' (map State df) -> state_total s' df <= state_total s df)
      /\ (forall s', In s' (map State df) ->
                     state_total s' df = state_total s df ->
                     String.leb s s' = true).
Proof.
  intro df. split; [reflexivity|].
  apply (most_affected_state_first_max df). discriminate.
Defined.

(** ** The average of annual cases *)

(** C1: on one year with the two rows 10 and 20, line 153 yields 15, the
    mean of the per-year means; the mean of the per-year sums is 30. *)
Theorem avg_annual_cases_one_year :
  yearly_data one_year_two_rows = [(2019, 30)]
  /\ spec_avg_annual_cases one_year_two_rows = Finite (30 # 1)
  /\ avg_annual_cases one_year_two_rows = Finite (15 # 1)
  /\ avg_annual_cases one_year_two_rows <> spec_avg_annual_cases one_year_two_rows.
Proof. repeat split. discriminate. Qed.

(** ** The key statistics of an empty table *)

(** C2, as the claim states it, fails: with a year range that excludes
    every row the filtered table is empty and the most-affected-state
    lookup raises, which ends the evaluation of the metrics. *)
Lemma most_affected_state_raises_on_empty :
  filtered_df small_table years_before_table = []
  /\ most_affected_state (filtered_df small_table years_before_table)
     = Raise ValueError
  /\ key_statistics (filtered_df small_table years_before_table)
     = Raise ValueError.
Proof. repeat split. Qed.

(** C2, amended: when the filter leaves no row, the total is 0, the
    average and the male percentage are NaN and raise nothing, and the
    most-affected-state lookup raises ValueError. *)
Theorem key_statistics_on_empty (df : DataFrame) (spec : FilterSpec) :
  filtered_df df spec = [] ->
  total_cases (filtered_df df spec) = 0
  /\ avg_annual_cases (filtered_df df spec) = NaN
  /\ gender_ratio (filtered_df df spec) = NaN
  /\ most_affected_state (filtered_df df spec) = Raise ValueError
  /\ key_statistics (filtered_df df spec) = Raise ValueError.
Proof. intro H. rewrite H. repeat split. Qed.

Lemma key_statistics_on_empty_witness :
  total_cases (filtered_df small_table years_before_table) = 0
  /\ avg_annual_cases (filtered_df small_table years_before_table) = NaN
  /\ gender_ratio (filtered_df small_table years_before_table) = NaN
  /\ most_affected_state (filtered_df small_table years_before_table)
     = Raise ValueError
  /\ key_statistics (filtered_df small_table years_before_table)
     = Raise ValueError.
Proof. apply (key_statistics_on_empty small_table years_before_table). reflexivity. Defined.

(** ** Geographic name reconciliation *)

Lemma replace_unmapped (mapping : list (string * string)) (s : string) :
  ~ In s (map fst mapping) -> replace mapping s = s.
Proof.
  intro Hno. unfold replace.
  destruct (find (fun kv => String.eqb (fst kv) s) mapping) as [kv|] eqn:E;
    [| reflexivity].
  apply find_some in E. destruct E as [Hin Heq].
  apply String.eqb_eq in Heq. subst s.
  contradiction Hno. now apply in_map.
Qed.

(** C9: on the State column of the by-State aggregate the reconciliation
    replaces a key of [state_name_mapping] by its value and leaves any
    other name as it is; the Total column is not touched. *)
Theorem map_data_replaces_mapped_names :
  (forall k v, In (k, v) state_name_mapping -> replace state_name_mapping k = v)
  /\ (forall s, ~ In s (map fst state_name_mapping) ->
                replace state_name_mapping s = s)
  /\ replace state_name_mapping "Odisha" = "Orissa"
  /\ replace state_name_mapping "Uttarakhand" = "Uttaranchal"
  /\ replace state_name_mapping "Kerala" = "Kerala"
  /\ (forall df,
        map fst (map_data df)
        = map (replace state_name_mapping)
              (map fst (agg_sum (groupby String.compare State df)))
        /\ map snd (map_data df)
           = map snd (agg_sum (groupby String.compare State df))).
Proof.
  split.
  { intros k v Hin. simpl in Hin.
    repeat (destruct Hin as [Hin | Hin]; [injection Hin as <- <-; reflexivity|]).
    contradiction. }
  split; [intros s Hs; now apply replace_unmapped|].
  repeat split; unfold map_data; rewrite !map_map; reflexivity.
Qed.

(** ** The examples of the specification *)

Example load_data_example :
  load_data [ mkRow "Kerala" "Causes" "male" "15-29" 2019 10;
              mkRow "Total (All India)" "Causes" "male" "15-29" 2019 9999 ]
  = [ mkRow "Kerala" "Causes" "Male" "15-29" 2019 10 ].
Proof. reflexivity. Qed.

Example filtered_df_example :
  let df := [ mkRow "Kerala" "Causes" "Male" "15-29" 2019 10 ] in
  filtered_df df (mkFilterSpec ["Kerala"] (2019, 2019) ["Causes"] ["Male"] ["15-29"]) = df
  /\ filtered_df df (mkFilterSpec ["Kerala"] (2019, 2019) ["Causes"] ["Female"] ["15-29"]) = [].
Proof. split; reflexivity. Qed.

Example yearly_data_example :
  yearly_data [ mkRow "Goa" "Causes" "Female" "15-29" 2020 30;
                mkRow "Kerala" "Causes" "Male" "15-29" 2019 10;
                mkRow "Kerala" "Causes" "Female" "15-29" 2019 20 ]
  = [(2019, 30); (2020, 30)].
Proof. reflexivity. Qed.

Example sum64_wraps : sum64 [2 ^ 63 - 1; 1] = - 2 ^ 63.
Proof. reflexivity. Qed.

(** ** What [load_data] leaves alone *)

Lemma category_data_keys (category : Row -> string) (df : DataFrame) (k : string) :
  In k (map fst (category_data category df)) <-> In k (map category df).
Proof.
  unfold category_data. rewrite agg_sum_keys. split; intro H.
  - apply in_map_iff in H. destruct H as ([k0 g] & <- & Hin).
    eapply (groupby_key_of_row String.compare category String_as_OT.cmp_eq
              String_as_OT.cmp_antisym string_cmp_trans); eassumption.
  - apply in_map_iff in H. destruct H as (r & <- & Hr).
    destruct (groupby_has_key String.compare category String_as_OT.cmp_eq
                String_as_OT.cmp_antisym string_cmp_trans df r Hr) as [g Hg].
    apply (in_map fst) in Hg. exact Hg.
Qed.

(** C10: [load_data] keeps a sub-sequence of the input rows in input
    order, and on each kept row Age_group, Year and Total are the input's
    cells, untouched; so the Age_group keys of the category aggregate are
    the labels of the kept input rows as they were written, and labels
    that differ in case or whitespace stay apart. *)
Theorem load_data_frame :
  (forall df,
      subseq (retained df) df
      /\ load_data df = map title_columns (retained df)
      /\ Forall2 passed_through (retained df) (load_data df)
      /\ forall k, In k (map fst (category_data Age_group (load_data df)))
                    <-> In k (map Age_group (retained df)))
  /\ category_data Age_group
       (load_data [ mkRow "kerala" "causes" "male" "15-29 yrs" 2019 10;
                    mkRow "total (states)" "causes" "male" "15-29 YRS" 2019 99;
                    mkRow "goa" "causes" "male" "15-29 YRS" 2018 (-3);
                    mkRow "goa" "causes" "female" " 15-29 yrs" 2018 4 ])
     = [(" 15-29 yrs", 4); ("15-29 YRS", -3); ("15-29 yrs", 10)].
Proof.
  split; [| reflexivity].
  intro df. split; [apply filter_subseq |].
  split; [apply load_data_retained |].
  assert (H : Forall2 passed_through (retained df) (load_data df)).
  { rewrite load_data_retained. apply Forall2_map_r. intro a. repeat split. }
  split; [exact H |].
  intro k. rewrite category_data_keys.
  replace (map Age_group (load_data df)) with (map Age_group (retained df));
    [reflexivity|].
  rewrite load_data_retained, map_map. reflexivity.
Qed.

(** * The aggregate views *)

(** ** What a grouped sum holds, for any key order *)

Section GroupedSums.

Context {K : Type} (cmp : K -> K -> comparison) (key : Row -> K).

Hypothesis cmp_eq : forall a b, cmp a b = Eq <-> a = b.
Hypothesis cmp_antisym : forall a b, cmp a b = CompOpp (cmp b a).
Hypothesis cmp_trans : forall a b c, cmp a b = Lt -> cmp b c = Lt -> cmp a c = Lt.

(** The rows of the aggregate: one per key of the table, with the int64
    sum of the cells of the rows under that key. *)
Lemma agg_sum_In (df : DataFrame) (k : K) (v : Z) :
  In (k, v) (agg_sum (groupby cmp key df))
  <-> In k (map key df)
      /\ v = sum64 (map Total (filter (keyed cmp key k) df)).
Proof.
  unfold agg_sum. rewrite in_map_iff. split.
  - intros ([k0 g] & Heq & Hin). simpl in Heq. injection Heq as -> <-. split.
    + eapply groupby_key_of_row; eassumption.
    + f_equal. eapply groupby_In; eassumption.
  - intros [Hk ->]. apply in_map_iff in Hk. destruct Hk as (r & <- & Hr).
    destruct (groupby_has_key cmp key cmp_eq cmp_antisym cmp_trans df r Hr)
      as [g Hg].
    exists (key r, g). split; [| exact Hg]. simpl. do 2 f_equal.
    eapply groupby_In; eassumption.
Qed.

(** Cells enter the groups selected by a predicate on keys exactly when
    their row's key satisfies it. *)
Lemma cells_filter_group_insert (P : K -> bool) (k : K) (v : Z)
    (gs : list (K * Group)) :
  sumZ (cells (filter (fun kg => P (fst kg)) (group_insert cmp k v gs)))
  = sumZ (cells (filter (fun kg => P (fst kg)) gs)) + (if P k then v else 0).
Proof.
  induction gs as [|[k1 g1] gs IH]; cbn [group_insert].
  - cbn [filter fst]. destruct (P k); [rewrite cells_cons|]; simpl; lia.
  - destruct (cmp k k1) eqn:E.
    + apply cmp_eq in E. subst k1. cbn [filter fst].
      destruct (P k).
      * rewrite !cells_cons, values_push, sumZ_app. simpl. lia.
      * lia.
    + cbn [filter fst]. destruct (P k), (P k1); rewrite ?cells_cons; simpl; lia.
    + cbn [filter fst]. destruct (P k1); rewrite ?cells_cons, IH; lia.
Qed.

Lemma cells_filter_groupby (P : K -> bool) (df : DataFrame) :
  sumZ (cells (filter (fun kg => P (fst kg)) (groupby cmp key df)))
  = sumZ (map Total (filter (fun r => P (key r)) df)).
Proof.
  unfold groupby.
  assert (H : forall gs,
             sumZ (cells (filter (fun kg => P (fst kg))
                            (fold_left
                               (fun gs r => group_insert cmp (key r) (Total r) gs)
                               df gs)))
             = sumZ (cells (filter (fun kg => P (fst kg)) gs))
               + sumZ (map Total (filter (fun r => P (key r)) df))).
  { induction df as [|r df IH]; intro gs; cbn [fold_left filter]; [simpl; lia|].
    rewrite IH, cells_filter_group_insert.
    destruct (P (key r)); simpl; lia. }
  rewrite H. reflexivity.
Qed.

(** Adding up the aggregate rows whose key satisfies a predicate gives
    the int64 sum of the table rows whose key satisfies it. *)
Lemma groupby_partial_sum (P : K -> bool) (df : DataFrame) :
  sum64 (map snd (filter (fun kv => P (fst kv)) (agg_sum (groupby cmp key df))))
  = sum64 (map Total (filter (fun r => P (key r)) df)).
Proof.
  unfold agg_sum at 1. rewrite filter_map_comm. cbn [fst].
  change (map (fun kg : K * Group => (fst kg, sum64 (values (snd kg)))))
    with (@agg_sum K).
  rewrite sum64_agg_sum, cells_filter_groupby, sum64_sumZ. reflexivity.
Qed.

End GroupedSums.

(** ** The order of Year-by-category rows *)

Lemma pair_compare_eq (a b : Z * string) : pair_compare a b = Eq <-> a = b.
Proof.
  destruct a as [y1 c1], b as [y2 c2]. unfold pair_compare. simpl.
  destruct (y1 ?= y2) eqn:E.
  - apply Z.compare_eq_iff in E. subst y2.
    rewrite String_as_OT.cmp_eq. split; [now intros -> | now intros [= ->]].
  - split; [discriminate|]. intros [= -> _]. rewrite Z.compare_refl in E. discriminate.
  - split; [discriminate|]. intros [= -> _]. rewrite Z.compare_refl in E. discriminate.
Qed.

Lemma pair_compare_antisym (a b : Z * string) :
  pair_compare a b = CompOpp (pair_compare b a).
Proof.
  destruct a as [y1 c1], b as [y2 c2]. unfold pair_compare. simpl.
  rewrite (Z.compare_antisym y1 y2).
  destruct (y1 ?= y2); simpl; auto. apply String_as_OT.cmp_antisym.
Qed.

Lemma pair_compare_lt (a b : Z * string) :
  pair_compare a b = Lt
  <-> fst a < fst b \/ (fst a = fst b /\ String.compare (snd a) (snd b) = Lt).
Proof.
  unfold pair_compare. destruct (fst a ?= fst b) eqn:E.
  - apply Z.compare_eq_iff in E. split; [tauto|]. intros [H | [_ H]]; [lia | exact H].
  - rewrite Z.compare_lt_iff in E. split; [tauto | reflexivity].
  - rewrite Z.compare_gt_iff in E. split; [discriminate|]. intros [H | [H _]]; lia.
Qed.

Lemma pair_compare_trans (a b c : Z * string) :
  pair_compare a b = Lt -> pair_compare b c = Lt -> pair_compare a c = Lt.
Proof.
  rewrite !pair_compare_lt.
  intros [H1 | [H1 S1]] [H2 | [H2 S2]]; try (left; lia).
  right. split; [lia|]. eapply string_cmp_trans; eassumption.
Qed.

Lemma Z_eqb_compare (a b : Z) :
  (a =? b) = match a ?= b with Eq => true | _ => false end.
Proof.
  destruct (a ?= b) eqn:E.
  - apply Z.compare_eq_iff in E. subst. apply Z.eqb_refl.
  - rewrite Z.compare_lt_iff in E. apply Z.eqb_neq. lia.
  - rewrite Z.compare_gt_iff in E. apply Z.eqb_neq. lia.
Qed.

Lemma yearly_data_In (df : DataFrame) (y v : Z) :
  In (y, v) (yearly_data df)
  <-> In y (map Year df)
      /\ v = sum64 (map Total (filter (fun r => Year r =? y) df)).
Proof.
  unfold yearly_data.
  rewrite (agg_sum_In Z.compare Year Z_cmp_eq Z_cmp_antisym Z_cmp_trans).
  rewrite (filter_ext (keyed Z.compare Year y) (fun r => Year r =? y));
    [reflexivity|].
  intro r. unfold keyed. symmetry. apply Z_eqb_compare.
Qed.

Lemma category_data_In (category : Row -> string) (df : DataFrame)
    (k : string) (v : Z) :
  In (k, v) (category_data category df)
  <-> In k (map category df)
      /\ v = sum64 (map Total (filter (fun r => String.eqb (category r) k) df)).
Proof.
  unfold category_data.
  rewrite (agg_sum_In String.compare category String_as_OT.cmp_eq
             String_as_OT.cmp_antisym string_cmp_trans).
  rewrite (filter_ext (keyed String.compare category k)
             (fun r => String.eqb (category r) k)); [reflexivity|].
  intro r. unfold keyed. symmetry. apply string_eqb_compare.
Qed.

(** X1: the by-Year aggregate lists the years of the table in strictly
    ascending order, each once, and a year's Total is the int64 sum of
    the Total cells of that year's rows. *)
Theorem yearly_data_rows (df : DataFrame) :
  StronglySorted Z.lt (map fst (yearly_data df))
  /\ forall y v,
      In (y, v) (yearly_data df)
      <-> In y (map Year df)
          /\ v = sum64 (map Total (filter (fun r => Year r =? y) df)).
Proof.
  split.
  - unfold yearly_data. rewrite agg_sum_keys.
    exact (groupby_ascending Z.compare Year Z_cmp_eq Z_cmp_antisym Z_cmp_trans df).
  - intros y v. apply yearly_data_In.
Qed.

(** X2: a by-category aggregate (Type, Gender, Age_group or State) lists
    the labels of the column in strictly ascending string order, each
    once, with the int64 sum of the Total cells of the label's rows. *)
Theorem category_data_rows (category : Row -> string) (df : DataFrame) :
  StronglySorted (fun a b => String.compare a b = Lt)
                 (map fst (category_data category df))
  /\ forall k v,
      In (k, v) (category_data category df)
      <-> In k (map category df)
          /\ v = sum64 (map Total (filter (fun r => String.eqb (category r) k) df)).
Proof.
  split.
  - unfold category_data. rewrite agg_sum_keys.
    exact (groupby_ascending String.compare category String_as_OT.cmp_eq
             String_as_OT.cmp_antisym string_cmp_trans df).
  - intros k v. apply category_data_In.
Qed.

(** X3: the rows of the Year-by-category aggregate come ordered by Year
    and, within a year, by label; each (year, label) pair of the table
    appears once with the int64 sum of its rows' Total cells. *)
Theorem analysis_data_rows (analysis_type : string) (df : DataFrame) :
  StronglySorted
    (fun a b => fst a < fst b
                \/ (fst a = fst b /\ String.compare (snd a) (snd b) = Lt))
    (map fst (analysis_data analysis_type df))
  /\ forall y c v,
      In ((y, c), v) (analysis_data analysis_type df)
      <-> In (y, c) (map (fun r => (Year r, analysis_column analysis_type r)) df)
          /\ v = sum64 (map Total
                          (filter (fun r => (Year r =? y)
                                            && String.eqb (analysis_column analysis_type r) c)
                                  df)).
Proof.
  split.
  - unfold analysis_data. rewrite agg_sum_keys.
    pose proof (groupby_ascending pair_compare
                  (fun r => (Year r, analysis_column analysis_type r))
                  pair_compare_eq pair_compare_antisym pair_compare_trans df) as H.
    unfold ascending in H.
    eapply StronglySorted_ind with (P := StronglySorted _); [constructor | | exact H].
    intros a l _ IH Hall. constructor; [exact IH|].
    eapply Forall_impl; [| exact Hall]. intros b Hb. now apply pair_compare_lt.
  - intros y c v. unfold analysis_data.
    rewrite (agg_sum_In pair_compare _ pair_compare_eq pair_compare_antisym
               pair_compare_trans).
    rewrite (filter_ext
               (keyed pair_compare
                  (fun r => (Year r, analysis_column analysis_type r)) (y, c))
               (fun r => (Year r =? y)
                         && String.eqb (analysis_column analysis_type r) c));
      [reflexivity|].
    intro r. unfold keyed, pair_compare. simpl.
    rewrite Z_eqb_compare, string_eqb_compare.
    destruct (Year r ?= y); reflexivity.
Qed.

(** X4: in every grouped view the Total column adds up to Total Cases:
    the by-category aggregates, the map data after the renaming of
    states, and the Year-by-category aggregate. *)
Theorem aggregates_conserve_total (df : DataFrame) :
  (forall category, sum64 (map snd (category_data category df)) = total_cases df)
  /\ sum64 (map snd (map_data df)) = total_cases df
  /\ (forall analysis_type,
         sum64 (map snd (analysis_data analysis_type df)) = total_cases df).
Proof.
  unfold total_cases. repeat split.
  - intro category. unfold category_data.
    now rewrite sum64_agg_sum, cells_groupby, sum64_sumZ.
  - unfold map_data. rewrite map_map. cbn [snd].
    change (map (fun x : string * Z => snd x)) with (map (@snd string Z)).
    now rewrite sum64_agg_sum, cells_groupby, sum64_sumZ.
  - intro analysis_type. unfold analysis_data.
    now rewrite sum64_agg_sum, cells_groupby, sum64_sumZ.
Qed.

(** X5: the Year-by-category aggregate refines the two simple ones: its
    rows of one year add up to that year's row of the by-Year aggregate,
    and its rows of one label to that label's row of the by-category
    aggregate. *)
Theorem analysis_data_marginals (analysis_type : string) (df : DataFrame) :
  (forall y v,
      In (y, v) (yearly_data df) ->
      sum64 (map snd (filter (fun e => fst (fst e) =? y)
                             (analysis_data analysis_type df))) = v)
  /\ (forall c v,
         In (c, v) (category_data (analysis_column analysis_type) df) ->
         sum64 (map snd (filter (fun e => String.eqb (snd (fst e)) c)
                                (analysis_data analysis_type df))) = v).
Proof.
  split.
  - intros y v Hin. apply yearly_data_In in Hin. destruct Hin as [_ ->].
    unfold analysis_data.
    apply (groupby_partial_sum pair_compare
             (fun r => (Year r, analysis_column analysis_type r))
             pair_compare_eq (fun k => fst k =? y) df).
  - intros c v Hin. apply category_data_In in Hin. destruct Hin as [_ ->].
    unfold analysis_data.
    apply (groupby_partial_sum pair_compare
             (fun r => (Year r, analysis_column analysis_type r))
             pair_compare_eq (fun k => String.eqb (snd k) c) df).
Qed.

(** * The sidebar and the filter *)

(** ** [unique] *)

Lemma isin_cons (x y : string) (l : list string) :
  isin x (y :: l) = (String.eqb x y || isin x l)%bool.
Proof. reflexivity. Qed.

Lemma unique_from_In (l : list string) :
  forall seen x, In x (unique_from seen l) <-> In x l /\ ~ In x seen.
Proof.
  induction l as [|y l IH]; intros seen x; simpl; [tauto|].
  destruct (isin y seen) eqn:E.
  - apply isin_In in E. rewrite IH. split.
    + tauto.
    + intros [[-> | H] Hn]; [contradiction | tauto].
  - apply isin_false in E. simpl. rewrite IH. simpl. split.
    + intros [-> | [H Hn]]; [tauto|]. split; [tauto|]. intro Hs. apply Hn. now right.
    + intros [[-> | H] Hn]; [now left|].
      destruct (string_dec y x) as [-> | Hne]; [now left|].
      right. split; [exact H|]. intros [Heq | Hs]; [contradiction | contradiction].
Qed.

Lemma unique_from_NoDup (l : list string) :
  forall seen, NoDup (unique_from seen l).
Proof.
  induction l as [|y l IH]; intro seen; simpl; [constructor|].
  destruct (isin y seen); [apply IH|].
  constructor; [| apply IH].
  rewrite unique_from_In. intros [_ Hn]. apply Hn. now left.
Qed.

Lemma unique_from_subseq (l : list string) :
  forall seen, subseq (unique_from seen l) l.
Proof.
  induction l as [|y l IH]; intro seen; simpl; [constructor|].
  destruct (isin y seen); constructor; apply IH.
Qed.

Lemma unique_from_ext (l : list string) :
  forall s1 s2, (forall z, isin z s1 = isin z s2) ->
                unique_from s1 l = unique_from s2 l.
Proof.
  induction l as [|y l IH]; intros s1 s2 H; simpl; [reflexivity|].
  rewrite <- (H y). destruct (isin y s1).
  - now apply IH.
  - f_equal. apply IH. intro z. rewrite !isin_cons. now rewrite H.
Qed.

Lemma unique_from_seen (l : list string) :
  forall seen x,
    unique_from (x :: seen) l
    = unique_from seen (filter (fun y => negb (String.eqb y x)) l).
Proof.
  induction l as [|y l IH]; intros seen x; cbn [unique_from filter]; [reflexivity|].
  rewrite isin_cons. destruct (String.eqb y x) eqn:E; cbn [negb orb unique_from].
  - apply IH.
  - destruct (isin y seen).
    + apply IH.
    + f_equal. rewrite <- IH. apply unique_from_ext.
      intro z. rewrite !isin_cons. destruct (String.eqb z y), (String.eqb z x); reflexivity.
Qed.

(** X6: the options of a multiselect ([Series.unique()]) hold every value
    of the column exactly once, in the order in which the values first
    appear in the column. *)
Theorem unique_first_appearance :
  (forall l, NoDup (unique l))
  /\ (forall l x, In x (unique l) <-> In x l)
  /\ (forall l, subseq (unique l) l)
  /\ (forall x l,
         unique (x :: l)
         = x :: unique (filter (fun y => negb (String.eqb y x)) l)).
Proof.
  unfold unique. repeat split.
  - intro l. apply unique_from_NoDup.
  - intro H. apply unique_from_In in H. tauto.
  - intro H. apply unique_from_In. tauto.
  - intro l. apply unique_from_subseq.
  - intros x l. simpl. f_equal. apply unique_from_seen.
Qed.

(** ** The default selections *)

Lemma fold_min_le (l : list Z) :
  forall a, fold_left Z.min l a <= a /\ Forall (fun x => fold_left Z.min l a <= x) l.
Proof.
  induction l as [|x l IH]; intro a; simpl; [split; [lia | constructor]|].
  destruct (IH (Z.min a x)) as [H1 H2]. split; [lia|].
  constructor; [lia | exact H2].
Qed.

Lemma fold_max_ge (l : list Z) :
  forall a, a <= fold_left Z.max l a /\ Forall (fun x => x <= fold_left Z.max l a) l.
Proof.
  induction l as [|x l IH]; intro a; simpl; [split; [lia | constructor]|].
  destruct (IH (Z.max a x)) as [H1 H2]. split; [lia|].
  constructor; [lia | exact H2].
Qed.

Lemma fold_max_In (l : list Z) :
  forall a, fold_left Z.max l a = a \/ In (fold_left Z.max l a) l.
Proof.
  induction l as [|x l IH]; intro a; simpl; [now left|].
  destruct (IH (Z.max a x)) as [H | H]; [| right; now right].
  rewrite H. destruct (Z.max_spec a x) as [[_ ->] | [_ ->]]; [right; now left | now left].
Qed.

Lemma series_min_le (vs : list Z) (m : Z) :
  series_min vs = Some m -> Forall (fun x => m <= x) vs.
Proof.
  destruct vs as [|v vs]; simpl; [discriminate|]. intros [= <-].
  destruct (fold_min_le vs v) as [Ha Hall]. now constructor.
Qed.

Lemma series_max_ge (vs : list Z) (m : Z) :
  series_max vs = Some m -> Forall (fun x => x <= m) vs /\ In m vs.
Proof.
  destruct vs as [|v vs]; simpl; [discriminate|]. intros [= <-].
  destruct (fold_max_ge vs v) as [Ha Hall]. split; [now constructor|].
  destruct (fold_max_In vs v) as [Hm | Hm]; [left; now rewrite Hm | now right].
Qed.

Lemma filter_all {A : Type} (p : A -> bool) (l : list A) :
  (forall a, In a l -> p a = true) -> filter p l = l.
Proof.
  induction l as [|a l IH]; intro H; simpl; [reflexivity|].
  rewrite (H a (or_introl eq_refl)). f_equal. apply IH.
  intros b Hb. apply H. now right.
Qed.

Lemma isin_unique (l : list string) (x : string) :
  In x l -> isin x (unique l) = true.
Proof.
  intro H. apply isin_In. unfold unique. apply unique_from_In. tauto.
Qed.

(** X7: with the selections the sidebar starts with, the filter keeps
    the whole table, row for row; the defaults cannot be built for a
    table without rows, where the year bounds raise ValueError. *)
Theorem default_spec_keeps_all (df : DataFrame) :
  match default_spec df with
  | Ok spec => df <> [] /\ filtered_df df spec = df
  | Raise e => df = [] /\ e = ValueError
  end.
Proof.
  unfold default_spec.
  destruct (series_min (map Year df)) as [lo|] eqn:Emin;
    [| destruct df; [now split | discriminate]].
  destruct (series_max (map Year df)) as [hi|] eqn:Emax;
    [| destruct df; discriminate].
  cbn [int_of bind]. split; [destruct df; [discriminate | discriminate]|].
  apply filter_all. intros r Hr. unfold mask. cbn [selected_states selected_years
    selected_type selected_gender selected_age_group fst snd].
  apply series_min_le in Emin. apply series_max_ge in Emax. destruct Emax as [Emax _].
  rewrite Forall_forall in Emin, Emax.
  rewrite !isin_unique by now apply in_map.
  unfold between.
  assert (lo <= Year r) by (apply Emin; now apply in_map).
  assert (Year r <= hi) by (apply Emax; now apply in_map).
  rewrite !andb_true_iff, !Z.leb_le. tauto.
Qed.

(** ** Narrowing a selection *)

Lemma subseq_filter_filter {A : Type} (p q : A -> bool) (l : list A) :
  (forall a, p a = true -> q a = true) ->
  subseq (filter p l) (filter q l).
Proof.
  intro H. induction l as [|a l IH]; simpl; [constructor|].
  destruct (p a) eqn:E.
  - rewrite (H a E). now constructor.
  - destruct (q a); [now constructor | exact IH].
Qed.

Lemma filter_filter_narrow {A : Type} (p q : A -> bool) (l : list A) :
  (forall a, p a = true -> q a = true) ->
  filter p (filter q l) = filter p l.
Proof.
  intro H. induction l as [|a l IH]; simpl; [reflexivity|].
  destruct (q a) eqn:Eq; simpl.
  - destruct (p a); now rewrite IH.
  - destruct (p a) eqn:Ep; [| exact IH].
    apply H in Ep. congruence.
Qed.

Lemma mask_narrows (narrow wide : FilterSpec) (r : Row) :
  narrows narrow wide -> mask narrow r = true -> mask wide r = true.
Proof.
  intros (Hs & Hlo & Hhi & Ht & Hg & Ha). rewrite !mask_selected.
  unfold selected. intros (H1 & H2 & H3 & H4 & H5).
  repeat split; auto; lia.
Qed.

(** X8: a selection that narrows another one (smaller lists, a year
    range inside the other) keeps a sub-sequence of what the wider one
    keeps, and filtering the wider result again with the narrow selection
    gives what the narrow selection gives on the whole table. *)
Theorem filtered_df_narrows (df : DataFrame) (narrow wide : FilterSpec) :
  narrows narrow wide ->
  subseq (filtered_df df narrow) (filtered_df df wide)
  /\ filtered_df (filtered_df df wide) narrow = filtered_df df narrow.
Proof.
  intro H. unfold filtered_df. split.
  - apply subseq_filter_filter. intro r. now apply mask_narrows.
  - apply filter_filter_narrow. intro r. now apply mask_narrows.
Qed.

Lemma filtered_df_narrows_witness :
  let df := [ mkRow "Kerala" "Causes" "Male" "15-29" 2019 10;
              mkRow "Goa" "Causes" "Female" "30-44" 2020 7;
              mkRow "Kerala" "Means" "Female" "15-29" 2021 3 ] in
  let wide := mkFilterSpec ["Kerala"; "Goa"] (2019, 2021) ["Causes"; "Means"]
                           ["Male"; "Female"] ["15-29"; "30-44"] in
  let narrow := mkFilterSpec ["Kerala"] (2019, 2020) ["Causes"; "Means"]
                             ["Male"; "Female"] ["15-29"] in
  filtered_df df narrow = [ mkRow "Kerala" "Causes" "Male" "15-29" 2019 10 ]
  /\ subseq (filtered_df df narrow) (filtered_df df wide)
  /\ filtered_df (filtered_df df wide) narrow = filtered_df df narrow.
Proof.
  intros df wide narrow. split; [reflexivity|].
  apply (filtered_df_narrows df narrow wide).
  unfold narrows, incl. simpl. repeat split; try lia; intros a Ha; tauto.
Defined.

(** * The key statistics and the by-State views *)

Lemma most_affected_state_in (df : DataFrame) (s : string) :
  most_affected_state df = Ok s -> In s (map State df).
Proof.
  unfold most_affected_state. intro H.
  pose proof (agg_sum_state_total df) as Hout.
  destruct (agg_sum (groupby String.compare State df)) as [|kv s0]; [discriminate|].
  simpl in H. injection H as <-.
  destruct (idxmax_from_first_max s0 kv) as (s1 & s2 & k & v & Heq & Hk & _).
  rewrite Hk. apply (Hout k v). rewrite Heq. apply in_elt.
Qed.

Lemma most_affected_state_max (df : DataFrame) (s k : string) (v : Z) :
  most_affected_state df = Ok s ->
  In (k, v) (agg_sum (groupby String.compare State df)) ->
  v <= state_total s df.
Proof.
  unfold most_affected_state. intros H Hin.
  pose proof (agg_sum_state_total df) as Hout.
  destruct (agg_sum (groupby String.compare State df)) as [|kv s0]; [contradiction|].
  simpl in H. injection H as <-.
  destruct (idxmax_from_first_max s0 kv) as (s1 & s2 & k' & v' & Heq & Hk & H1 & H2).
  rewrite Hk. rewrite Heq in Hin, Hout.
  destruct (Hout k' v') as [-> _]; [apply in_elt|].
  rewrite Forall_forall in H1, H2.
  apply in_app_or in Hin. destruct Hin as [Hin | [Hin | Hin]].
  - apply H1 in Hin. simpl in Hin. lia.
  - injection Hin as _ <-. lia.
  - apply H2 in Hin. exact Hin.
Qed.

Lemma most_affected_state_raises (df : DataFrame) (e : exn) :
  most_affected_state df = Raise e -> df = [].
Proof.
  unfold most_affected_state. intro H.
  destruct df as [|r df]; [reflexivity|]. exfalso.
  pose proof (state_in_agg_sum (r :: df) (State r) (or_introl eq_refl)) as Hin.
  destruct (agg_sum (groupby String.compare State (r :: df))); [contradiction|].
  discriminate.
Qed.

Lemma replace_not_reserved (s : string) :
  ~ In s states_to_remove -> ~ In (replace state_name_mapping s) states_to_remove.
Proof.
  intro Hs. unfold replace.
  destruct (find (fun kv => String.eqb (fst kv) s) state_name_mapping)
    as [kv|] eqn:E; [| exact Hs].
  apply find_some in E. destruct E as [Hin _]. simpl in Hin.
  repeat (destruct Hin as [<- | Hin];
          [simpl; intros [H | [H | [H | []]]]; discriminate |]).
  contradiction.
Qed.

Lemma load_data_not_reserved (raw : DataFrame) (spec : FilterSpec) (r : Row) :
  In r (filtered_df (load_data raw) spec) -> ~ In (State r) states_to_remove.
Proof.
  unfold filtered_df, load_data. intro H.
  apply filter_In in H. destruct H as [H _].
  apply filter_In in H. destruct H as [_ H].
  apply negb_true_iff in H. now apply isin_false.
Qed.

(** X9: whatever the upload and the selections, the reserved total
    labels never reach a by-State view: neither the options of the State
    multiselect, nor the by-State aggregate, nor the map data after
    renaming, nor the most affected state. *)
Theorem reserved_labels_never_aggregated (raw : DataFrame) (spec : FilterSpec) :
  let df := filtered_df (load_data raw) spec in
  (forall s, In s (unique (map State (load_data raw))) -> ~ In s states_to_remove)
  /\ (forall k v, In (k, v) (category_data State df) -> ~ In k states_to_remove)
  /\ (forall k v, In (k, v) (map_data df) -> ~ In k states_to_remove)
  /\ (forall s, most_affected_state df = Ok s -> ~ In s states_to_remove).
Proof.
  intro df. split.
  { intros s Hs. unfold unique in Hs. apply unique_from_In in Hs.
    destruct Hs as [Hs _]. apply in_map_iff in Hs. destruct Hs as (r & <- & Hr).
    unfold load_data in Hr. apply filter_In in Hr. destruct Hr as [_ Hr].
    apply negb_true_iff in Hr. now apply isin_false. }
  assert (Hstate : forall s, In s (map State df) -> ~ In s states_to_remove).
  { intros s Hs. apply in_map_iff in Hs. destruct Hs as (r & <- & Hr).
    now apply (load_data_not_reserved raw spec). }
  assert (Hagg : forall k v, In (k, v) (category_data State df) ->
                             ~ In k states_to_remove).
  { intros k v Hin. apply Hstate. apply category_data_keys.
    apply (in_map fst) in Hin. exact Hin. }
  split; [exact Hagg|]. split.
  - intros k v Hin. unfold map_data in Hin. apply in_map_iff in Hin.
    destruct Hin as ([k0 v0] & Heq & Hin). simpl in Heq. injection Heq as <- <-.
    apply replace_not_reserved. now apply (Hagg k0 v0).
  - intros s Hs. apply Hstate. now apply most_affected_state_in.
Qed.

Lemma groupby_nonempty {K : Type} (cmp : K -> K -> comparison)
    (key : Row -> K) (df : DataFrame) :
  df <> [] -> groupby cmp key df <> [].
Proof.
  unfold groupby.
  assert (Hins : forall k v gs, group_insert cmp k v gs <> []).
  { intros k v [|[k1 g1] gs]; simpl; [discriminate|].
    destruct (cmp k k1); discriminate. }
  assert (Hfold : forall l gs,
             gs <> [] ->
             fold_left (fun gs r => group_insert cmp (key r) (Total r) gs) l gs <> []).
  { induction l as [|r l IH]; intros gs Hgs; simpl; [exact Hgs|].
    apply IH. apply Hins. }
  destruct df as [|r df]; [contradiction|]. intros _. cbn [fold_left].
  apply Hfold. apply Hins.
Qed.

Lemma avg_annual_cases_finite (df : DataFrame) :
  df <> [] -> exists q, avg_annual_cases df = Finite q.
Proof.
  intro Hne. unfold avg_annual_cases, agg_mean.
  pose proof (groupby_nonempty Z.compare Year df Hne) as Hg.
  destruct (groupby Z.compare Year df) as [|kg gs]; [contradiction|].
  simpl. eexists. reflexivity.
Qed.

(** X10: the key statistics raise exactly on a table without rows, and
    the exception is the ValueError of the most-affected-state lookup; on
    any other table all four metrics are produced and the average is a
    finite number. *)
Theorem key_statistics_outcome (df : DataFrame) :
  match key_statistics df with
  | Ok (total, avg, state, ratio) =>
      df <> []
      /\ total = total_cases df
      /\ avg = avg_annual_cases df
      /\ (exists q, avg = Finite q)
      /\ most_affected_state df = Ok state
      /\ ratio = gender_ratio df
  | Raise e => df = [] /\ e = ValueError
  end.
Proof.
  unfold key_statistics.
  destruct (most_affected_state df) as [s | e] eqn:E; cbn [bind].
  - assert (Hne : df <> []) by (intros ->; discriminate).
    repeat split; auto. now apply avg_annual_cases_finite.
  - split; [now apply (most_affected_state_raises df e) | now destruct e].
Qed.

(** ** The gender ratio *)

Lemma sumZ_filter_bounds (p : Row -> bool) (df : DataFrame) :
  Forall (fun r => 0 <= Total r) df ->
  0 <= sumZ (map Total (filter p df)) <= sumZ (map Total df).
Proof.
  induction 1 as [|r df Hr _ IH]; simpl; [lia|].
  destruct (p r); simpl; lia.
Qed.

(** X11: when no Total cell is negative and Total Cases is positive and
    does not overflow, the gender ratio is a finite percentage between 0
    and 100. *)
Theorem gender_ratio_percentage (df : DataFrame) :
  Forall (fun r => 0 <= Total r) df ->
  0 < sumZ (map Total df) < 2 ^ 63 ->
  exists q, gender_ratio df = Finite q /\ (0 <= q <= 100)%Q.
Proof.
  intros Hpos Htot. unfold gender_ratio.
  pose proof (sumZ_filter_bounds (fun r => String.eqb (Gender r) "Male") df Hpos)
    as Hmale.
  set (m := sumZ (map Total (filter (fun r => String.eqb (Gender r) "Male") df))) in *.
  set (t := sumZ (map Total df)) in *.
  rewrite !sum64_exact by (fold m; fold t; lia). fold m. fold t.
  unfold true_divide. destruct (t =? 0) eqn:Et; [apply Z.eqb_eq in Et; lia|].
  cbn [fmul]. eexists. split; [reflexivity|].
  rewrite !Qred_correct.
  assert (Ht : (0 < inject_Z t)%Q).
  { change (inject_Z 0 < inject_Z t)%Q. rewrite <- Zlt_Qlt. lia. }
  assert (H0 : (0 <= inject_Z m / inject_Z t)%Q).
  { apply Qle_shift_div_l; [exact Ht|]. rewrite Qmult_0_l.
    change (inject_Z 0 <= inject_Z m)%Q. rewrite <- Zle_Qle. lia. }
  assert (H1 : (inject_Z m / inject_Z t <= 1)%Q).
  { apply Qle_shift_div_r; [exact Ht|]. rewrite Qmult_1_l.
    rewrite <- Zle_Qle. lia. }
  split.
  - apply Qmult_le_0_compat; [exact H0 | discriminate].
  - setoid_replace (100 : Q) with (1 * inject_Z 100)%Q by reflexivity.
    apply Qmult_le_compat_r; [exact H1 | discriminate].
Qed.

Lemma gender_ratio_percentage_witness :
  exists q, gender_ratio small_table = Finite q /\ (0 <= q <= 100)%Q.
Proof.
  apply (gender_ratio_percentage small_table).
  - repeat constructor; simpl; lia.
  - simpl. lia.
Defined.

(** X12: on the loaded table the rows counted as Male are the rows whose
    uploaded Gender cell spells "male" in any casing, and no others. *)
Theorem male_rows_any_casing (df : DataFrame) :
  filter (fun r => String.eqb (Gender r) "Male") (load_data df)
  = map title_columns
        (filter (fun r => String.eqb (str_lower (Gender r)) "male") (retained df)).
Proof.
  rewrite load_data_retained, filter_map_comm. f_equal.
  apply filter_ext. intro r. cbn [title_columns Gender].
  destruct (String.eqb (str_lower (Gender r)) "male") eqn:E.
  - apply String.eqb_eq in E. apply String.eqb_eq.
    change "Male" with (str_title "male"). apply str_title_eq_iff. exact E.
  - apply String.eqb_neq in E. apply String.eqb_neq. intro H. apply E.
    change "male" with (str_lower "male"). apply str_title_eq_iff. exact H.
Qed.

(** ** The state ranking and the colour range of the map *)

Lemma sumZ_Permutation (l1 l2 : list Z) :
  Permutation l1 l2 -> sumZ l1 = sumZ l2.
Proof. induction 1; simpl; lia. Qed.

(** X13: in any order the descending sort may give the state ranking,
    its first row carries the total of the most affected state, no row
    carries more, and the ranking still adds up to Total Cases. *)
Theorem state_data_top (df : DataFrame) (out : list (string * Z)) :
  state_data df out ->
  df <> [] ->
  exists top others s,
    out = top :: others
    /\ most_affected_state df = Ok s
    /\ snd top = state_total s df
    /\ Forall (fun e => snd e <= snd top) out
    /\ sum64 (map snd out) = total_cases df.
Proof.
  intros [Hperm Hsort] Hne. unfold category_data in Hperm.
  destruct (most_affected_state df) as [s | e] eqn:Es;
    [| apply most_affected_state_raises in Es; contradiction].
  destruct out as [|top others].
  { apply Permutation_sym, Permutation_nil in Hperm.
    pose proof (state_in_agg_sum df s (most_affected_state_in df s Es)) as Hin.
    rewrite Hperm in Hin. contradiction. }
  exists top, others, s.
  apply StronglySorted_inv in Hsort. destruct Hsort as [_ Hall].
  rewrite Forall_forall in Hall.
  assert (Hle : Forall (fun e => snd e <= snd top) (top :: others)).
  { constructor; [lia|]. apply Forall_forall. exact Hall. }
  assert (Htop : snd top <= state_total s df).
  { apply (most_affected_state_max df s (fst top) (snd top) Es).
    apply (Permutation_in _ (Permutation_sym Hperm)).
    destruct top. now left. }
  assert (Hs : state_total s df <= snd top).
  { pose proof (state_in_agg_sum df s (most_affected_state_in df s Es)) as Hin.
    apply (Permutation_in _ Hperm) in Hin.
    rewrite Forall_forall in Hle. apply (Hle _ Hin). }
  repeat split; auto; [lia|].
  rewrite sum64_sumZ.
  rewrite <- (sumZ_Permutation _ _ (Permutation_map snd Hperm)).
  rewrite <- sum64_sumZ, sum64_agg_sum, cells_groupby.
  unfold total_cases. now rewrite sum64_sumZ.
Qed.

Lemma state_data_top_witness :
  let out := [("Kerala", 10); ("Goa", 7)] in
  exists top others s,
    out = top :: others
    /\ most_affected_state small_table = Ok s
    /\ snd top = state_total s small_table
    /\ Forall (fun e => snd e <= snd top) out
    /\ sum64 (map snd out) = total_cases small_table.
Proof.
  intro out. apply (state_data_top small_table out); [| discriminate].
  split.
  - apply perm_swap.
  - repeat constructor; simpl; lia.
Defined.

(** X14: the upper end of the map's colour range is the total of the
    most affected state, and no state on the map exceeds it; on a table
    without rows there is no upper end. *)
Theorem range_color_upper (df : DataFrame) :
  match most_affected_state df with
  | Ok s =>
      range_color df = (0, Some (state_total s df))
      /\ forall k v, In (k, v) (map_data df) -> v <= state_total s df
  | Raise _ => range_color df = (0, None)
  end.
Proof.
  assert (Hsnd : map snd (map_data df)
                 = map snd (agg_sum (groupby String.compare State df))).
  { unfold map_data. rewrite map_map. reflexivity. }
  destruct (most_affected_state df) as [s | e] eqn:Es.
  - assert (Hmax : forall v, In v (map snd (map_data df)) -> v <= state_total s df).
    { intros v Hv. rewrite Hsnd in Hv. apply in_map_iff in Hv.
      destruct Hv as ([k v'] & <- & Hin).
      now apply (most_affected_state_max df s k v'). }
    split.
    + unfold range_color. f_equal.
      destruct (series_max (map snd (map_data df))) as [m|] eqn:Em.
      * apply series_max_ge in Em. destruct Em as [Hall Hm].
        f_equal. apply Z.le_antisymm; [now apply Hmax|].
        rewrite Forall_forall in Hall. apply Hall. rewrite Hsnd.
        pose proof (state_in_agg_sum df s (most_affected_state_in df s Es)) as Hin.
        apply (in_map snd) in Hin. exact Hin.
      * exfalso.
        pose proof (state_in_agg_sum df s (most_affected_state_in df s Es)) as Hin.
        apply (in_map snd) in Hin. rewrite <- Hsnd in Hin.
        destruct (map snd (map_data df)); [contradiction | discriminate].
    + intros k v Hin. apply Hmax. apply (in_map snd) in Hin. exact Hin.
  - apply most_affected_state_raises in Es. subst df. reflexivity.
Qed.

(** X15: reconciliation is a single lookup with nothing left to rename:
    no mapped name is itself a key, so applying it twice changes nothing
    more, and every key is spelled in the title case [load_data] produces,
    so every entry can match a State of the loaded table. *)
Theorem reconciliation_stable :
  (forall s, replace state_name_mapping (replace state_name_mapping s)
             = replace state_name_mapping s)
  /\ (forall k v, In (k, v) state_name_mapping ->
                  str_title k = k /\ ~ In v (map fst state_name_mapping)).
Proof.
  assert (Hkeys : forall k v, In (k, v) state_name_mapping ->
                              str_title k = k /\ ~ In v (map fst state_name_mapping)).
  { intros k v Hin. simpl in Hin.
    repeat (destruct Hin as [Hin | Hin];
            [injection Hin as <- <-; split;
             [reflexivity | simpl; intuition discriminate] |]).
    contradiction. }
  split; [| exact Hkeys].
  intro s.
  assert (Hcase : replace state_name_mapping s = s
                  \/ exists k, In (k, replace state_name_mapping s) state_name_mapping).
  { unfold replace.
    destruct (find (fun kv => String.eqb (fst kv) s) state_name_mapping)
      as [[k v]|] eqn:E; [right | now left].
    apply find_some in E. exists k. simpl. tauto. }
  destruct Hcase as [Hs | [k Hin]].
  - now rewrite Hs.
  - apply replace_unmapped. now apply (Hkeys k _ Hin).
Qed.

(** * Download links *)

(** ** Base64 *)

Lemma string_ind3 (P : string -> Prop) :
  P EmptyString ->
  (forall x, P (String x EmptyString)) ->
  (forall x y, P (String x (String y EmptyString))) ->
  (forall x y z s, P s -> P (String x (String y (String z s)))) ->
  forall s, P s.
Proof.
  intros H0 H1 H2 H3 s.
  assert (H : P s /\ (forall x, P (String x s))
              /\ (forall x y, P (String x (String y s)))).
  { induction s as [|c s (IHa & IHb & IHc)]; [auto|].
    split; [apply IHb|]. split; [intro x; apply IHc|].
    intros x y. apply H3. exact IHa. }
  apply H.
Qed.

Lemma a2b_b2a (b5 b4 b3 b2 b1 b0 : bool) :
  Base64.a2b (Base64.b2a b5 b4 b3 b2 b1 b0)
  = Some (Ascii b0 b1 b2 b3 b4 b5 false false).
Proof. destruct b5, b4, b3, b2, b1, b0; reflexivity. Qed.

Lemma b2a_not_pad (b5 b4 b3 b2 b1 b0 : bool) :
  Ascii.eqb (Base64.b2a b5 b4 b3 b2 b1 b0) Base64.pad = false.
Proof. destruct b5, b4, b3, b2, b1, b0; reflexivity. Qed.

Lemma b2a_not_dquote (b5 b4 b3 b2 b1 b0 : bool) :
  Ascii.eqb (Base64.b2a b5 b4 b3 b2 b1 b0) "034"%char = false.
Proof. destruct b5, b4, b3, b2, b1, b0; reflexivity. Qed.

Lemma b64decode_b64encode_aux (s : string) :
  Base64.b64decode (Base64.b64encode s) = Some s.
Proof.
  induction s as [| x | x y | x y z s IH] using string_ind3.
  - reflexivity.
  - destruct x as [x0 x1 x2 x3 x4 x5 x6 x7].
    cbn [Base64.b64encode Base64.b64decode].
    now rewrite !a2b_b2a, !Ascii.eqb_refl.
  - destruct x as [x0 x1 x2 x3 x4 x5 x6 x7], y as [y0 y1 y2 y3 y4 y5 y6 y7].
    cbn [Base64.b64encode Base64.b64decode].
    now rewrite !a2b_b2a, Ascii.eqb_refl, b2a_not_pad.
  - destruct x as [x0 x1 x2 x3 x4 x5 x6 x7], y as [y0 y1 y2 y3 y4 y5 y6 y7],
      z as [z0 z1 z2 z3 z4 z5 z6 z7].
    cbn [Base64.b64encode Base64.b64decode].
    now rewrite !a2b_b2a, b2a_not_pad, IH.
Qed.

(** X16: Base64 decoding gives back the bytes that were encoded,
    whatever they are and whatever their number; so two different
    contents never share a link text. *)
Theorem b64decode_b64encode :
  (forall s, Base64.b64decode (Base64.b64encode s) = Some s)
  /\ (forall s t, Base64.b64encode s = Base64.b64encode t -> s = t).
Proof.
  split; [exact b64decode_b64encode_aux|].
  intros s t H.
  pose proof (b64decode_b64encode_aux s) as Hs.
  rewrite H, b64decode_b64encode_aux in Hs. now injection Hs.
Qed.

(** The characters Base64 text is made of. *)
Lemma b64encode_alphabet (s : string) (c : ascii) :
  In c (list_ascii_of_string (Base64.b64encode s)) ->
  c = Base64.pad \/ In c (list_ascii_of_string Base64.table_b2a).
Proof.
  assert (Hb : forall b5 b4 b3 b2 b1 b0,
             In (Base64.b2a b5 b4 b3 b2 b1 b0)
                (list_ascii_of_string Base64.table_b2a)).
  { intros b5 b4 b3 b2 b1 b0.
    destruct b5, b4, b3, b2, b1, b0; vm_compute; tauto. }
  induction s as [| x | x y | x y z s IH] using string_ind3.
  - intros [].
  - destruct x as [x0 x1 x2 x3 x4 x5 x6 x7].
    cbn [Base64.b64encode list_ascii_of_string In].
    intros [<- | [<- | [<- | [<- | []]]]]; auto.
  - destruct x as [x0 x1 x2 x3 x4 x5 x6 x7], y as [y0 y1 y2 y3 y4 y5 y6 y7].
    cbn [Base64.b64encode list_ascii_of_string In].
    intros [<- | [<- | [<- | [<- | []]]]]; auto.
  - destruct x as [x0 x1 x2 x3 x4 x5 x6 x7], y as [y0 y1 y2 y3 y4 y5 y6 y7],
      z as [z0 z1 z2 z3 z4 z5 z6 z7].
    cbn [Base64.b64encode list_ascii_of_string In].
    intros [<- | [<- | [<- | [<- | H]]]]; auto.
Qed.

Lemma b64encode_length (s : string) :
  String.length (Base64.b64encode s)
  = (4 * ((String.length s + 2) / 3))%nat.
Proof.
  induction s as [| x | x y | x y z s IH] using string_ind3.
  - reflexivity.
  - destruct x. reflexivity.
  - destruct x, y. reflexivity.
  - destruct x, y, z. cbn [Base64.b64encode String.length]. rewrite IH.
    replace (S (S (S (String.length s))) + 2)%nat
      with (String.length s + 2 + 1 * 3)%nat by lia.
    rewrite Nat.div_add by discriminate. lia.
Qed.

(** X17: Base64 text has four characters for every started group of
    three bytes and is written with the 64 characters of the table and
    "=" alone; the double quote, "<" and ">" are not among them. *)
Theorem b64encode_shape (s : string) :
  String.length (Base64.b64encode s) = (4 * ((String.length s + 2) / 3))%nat
  /\ forall c, In c (list_ascii_of_string (Base64.b64encode s)) ->
               (c = Base64.pad \/ In c (list_ascii_of_string Base64.table_b2a))
               /\ c <> "034"%char /\ c <> "<"%char /\ c <> ">"%char.
Proof.
  split; [apply b64encode_length|].
  intros c Hc. apply b64encode_alphabet in Hc. split; [exact Hc|].
  destruct Hc as [-> | Hc]; [repeat split; discriminate|].
  vm_compute in Hc.
  repeat (destruct Hc as [<- | Hc]; [repeat split; discriminate|]).
  contradiction.
Qed.

(** ** The links *)

Lemma strip_prefix_app (p s : string) :
  strip_prefix p (p ++ s)%string = Some s.
Proof.
  induction p as [|c p IH]; [destruct s; reflexivity|].
  simpl. now rewrite Ascii.eqb_refl.
Qed.

Lemma until_dquote_b64 (s rest : string) :
  until_dquote (Base64.b64encode s ++ dquote ++ rest)%string = Base64.b64encode s.
Proof.
  induction s as [| x | x y | x y z s IH] using string_ind3.
  - reflexivity.
  - destruct x as [x0 x1 x2 x3 x4 x5 x6 x7].
    cbn [Base64.b64encode String.append until_dquote].
    now rewrite !b2a_not_dquote.
  - destruct x as [x0 x1 x2 x3 x4 x5 x6 x7], y as [y0 y1 y2 y3 y4 y5 y6 y7].
    cbn [Base64.b64encode String.append until_dquote].
    now rewrite !b2a_not_dquote.
  - destruct x as [x0 x1 x2 x3 x4 x5 x6 x7], y as [y0 y1 y2 y3 y4 y5 y6 y7],
      z as [z0 z1 z2 z3 z4 z5 z6 z7].
    cbn [Base64.b64encode String.append until_dquote].
    now rewrite !b2a_not_dquote, IH.
Qed.

(** X18: each download link carries its content whole: the href value,
    read up to its closing quote and decoded, is the CSV text of the
    table, respectively the HTML of the chart, for any content and any
    chart title. *)
Theorem download_links_carry_content :
  (forall csv,
      link_payload ("<a href=" ++ dquote ++ "data:file/csv;base64,")%string
                   (get_csv_download_link csv) = Some csv)
  /\ (forall html title,
         link_payload ("<a href=" ++ dquote ++ "data:text/html;base64,")%string
                      (get_plot_download_link html title) = Some html).
Proof.
  split.
  - intro csv. unfold link_payload, get_csv_download_link.
    change ("<a href=" ++ dquote ++ "data:file/csv;base64," ++
            Base64.b64encode csv ++ dquote ++ " download=" ++ dquote ++
            "filtered_data.csv" ++ dquote ++ ">Download CSV</a>")%string
      with (("<a href=" ++ dquote ++ "data:file/csv;base64,") ++
            (Base64.b64encode csv ++ dquote ++ " download=" ++ dquote ++
             "filtered_data.csv" ++ dquote ++ ">Download CSV</a>"))%string.
    rewrite strip_prefix_app, until_dquote_b64. apply b64decode_b64encode_aux.
  - intros html title. unfold link_payload, get_plot_download_link.
    change ("<a href=" ++ dquote ++ "data:text/html;base64," ++
            Base64.b64encode html ++ dquote ++ " download=" ++ dquote ++
            title ++ ".html" ++ dquote ++ ">Download Chart</a>")%string
      with (("<a href=" ++ dquote ++ "data:text/html;base64,") ++
            (Base64.b64encode html ++ dquote ++ " download=" ++ dquote ++
             title ++ ".html" ++ dquote ++ ">Download Chart</a>"))%string.
    rewrite strip_prefix_app, until_dquote_b64. apply b64decode_b64encode_aux.
Qed.

(** * The Total Cases text *)

Lemma digit_not_comma (c : ascii) :
  is_digit c = true -> Ascii.eqb c ","%char = false /\ Ascii.eqb c "-"%char = false.
Proof.
  destruct c as [[] [] [] [] [] [] [] []]; intro H;
    solve [split; reflexivity | discriminate H].
Qed.

Lemma string_of_uint_digits (d : Decimal.uint) :
  all_digits (NilEmpty.string_of_uint d) = true.
Proof. induction d; simpl; auto. Qed.

Lemma str_int_digits (z : Z) :
  exists digits,
    digits <> EmptyString
    /\ all_digits digits = true
    /\ (str_int z = digits \/ str_int z = String "-"%char digits).
Proof.
  unfold str_int.
  assert (H : forall d, NilZero.string_of_uint d <> EmptyString
                        /\ all_digits (NilZero.string_of_uint d) = true).
  { intro d. destruct d; simpl; (split; [discriminate|]);
      try reflexivity; apply string_of_uint_digits. }
  destruct (Z.to_int z) as [d | d]; simpl;
    exists (NilZero.string_of_uint d); destruct (H d); auto.
Qed.

Lemma remove_insert_commas (digits : string) :
  all_digits digits = true -> remove_commas (insert_commas digits) = digits.
Proof.
  induction digits as [|d rest IH]; [reflexivity|].
  cbn [all_digits]. rewrite andb_true_iff. intros [Hd Hrest].
  destruct (digit_not_comma d Hd) as [Hc _].
  cbn [insert_commas remove_commas]. rewrite Hc. f_equal.
  destruct (negb (Nat.eqb (String.length rest) 0)
            && Nat.eqb (String.length rest mod 3) 0)%bool.
  - cbn [remove_commas]. rewrite Ascii.eqb_refl. now apply IH.
  - now apply IH.
Qed.

Lemma pred_mod3 (n : nat) :
  (0 < n)%nat ->
  ((n - 1) mod 3 = if Nat.eqb (n mod 3) 0 then 2 else n mod 3 - 1)%nat.
Proof.
  intro Hn.
  pose proof (Nat.div_mod_eq n 3) as Hdiv.
  pose proof (Nat.mod_upper_bound n 3 ltac:(discriminate)) as Hlt.
  symmetry. destruct (Nat.eqb (n mod 3) 0) eqn:E.
  - apply Nat.eqb_eq in E.
    apply (Nat.mod_unique (n - 1) 3 (n / 3 - 1)); lia.
  - apply Nat.eqb_neq in E.
    apply (Nat.mod_unique (n - 1) 3 (n / 3)); lia.
Qed.

Lemma split_insert_commas (digits : string) :
  all_digits digits = true ->
  digits <> EmptyString ->
  exists g gs,
    split_commas (insert_commas digits) = g :: gs
    /\ String.length g = S ((String.length digits - 1) mod 3)
    /\ Forall (fun x => String.length x = 3%nat) gs
    /\ Forall (fun x => all_digits x = true) (g :: gs).
Proof.
  induction digits as [|d rest IH]; [contradiction|].
  cbn [all_digits]. rewrite andb_true_iff. intros [Hd Hrest] _.
  destruct (digit_not_comma d Hd) as [Hc _].
  destruct rest as [|d' rest'].
  { exists (String d EmptyString), []. cbn. rewrite Hc.
    repeat split; auto. constructor; [| constructor]. cbn. now rewrite Hd. }
  destruct (IH Hrest ltac:(discriminate)) as (g & gs & Hsplit & Hlen & H3 & Hdig).
  assert (Hpos : (0 < String.length (String d' rest'))%nat) by (simpl; lia).
  remember (String d' rest') as rest eqn:Er. clear Er IH.
  pose proof (pred_mod3 (String.length rest) Hpos) as Hmod.
  cbn [insert_commas split_commas]. rewrite Hc.
  replace (Nat.eqb (String.length rest) 0) with false
    by (symmetry; apply Nat.eqb_neq; lia).
  cbn [negb andb String.length].
  replace (S (String.length rest) - 1)%nat with (String.length rest) by lia.
  destruct (Nat.eqb (String.length rest mod 3) 0) eqn:E.
  - apply Nat.eqb_eq in E.
    exists (String d EmptyString), (g :: gs).
    cbn [split_commas]. rewrite Ascii.eqb_refl, Hsplit.
    repeat split.
    + cbn [String.length]. now rewrite E.
    + constructor; [lia | exact H3].
    + constructor; [cbn; now rewrite Hd | exact Hdig].
  - apply Nat.eqb_neq in E.
    exists (String d g), gs. rewrite Hsplit.
    repeat split.
    + cbn [String.length]. lia.
    + exact H3.
    + inversion Hdig; subst. constructor; [cbn; now rewrite Hd | assumption].
Qed.

(** X19: the Total Cases text is the decimal text of the sum with commas
    put in: taking the commas out gives the number's plain digits (and
    sign) back, and between the commas stand groups of exactly three
    digits, after a first group of one to three. *)
Theorem format_thousands_groups (z : Z) :
  remove_commas (format_thousands z) = str_int z
  /\ exists g gs,
      split_commas (unsigned_part (format_thousands z)) = g :: gs
      /\ (1 <= String.length g <= 3)%nat
      /\ Forall (fun x => String.length x = 3%nat) gs
      /\ Forall (fun x => all_digits x = true) (g :: gs).
Proof.
  unfold format_thousands.
  destruct (str_int_digits z) as (digits & Hne & Hdig & [-> | ->]).
  - destruct digits as [|c rest]; [contradiction|].
    assert (Hc : Ascii.eqb c "-"%char = false).
    { cbn [all_digits] in Hdig. apply andb_true_iff in Hdig.
      now apply digit_not_comma. }
    rewrite Hc. split; [now apply remove_insert_commas|].
    destruct (split_insert_commas (String c rest) Hdig Hne)
      as (g & gs & Hsplit & Hlen & H3 & Hd).
    exists g, gs.
    assert (Hu : unsigned_part (insert_commas (String c rest))
                 = insert_commas (String c rest)).
    { cbn [insert_commas unsigned_part]. now rewrite Hc. }
    rewrite Hu. repeat split; auto; rewrite Hlen; [lia|].
    pose proof (Nat.mod_upper_bound (String.length (String c rest) - 1) 3
                  ltac:(discriminate)). lia.
  - rewrite Ascii.eqb_refl. split.
    + cbn [remove_commas]. replace (Ascii.eqb "-" ",") with false by reflexivity.
      f_equal. now apply remove_insert_commas.
    + destruct (split_insert_commas digits Hdig Hne)
        as (g & gs & Hsplit & Hlen & H3 & Hd).
      exists g, gs. cbn [unsigned_part]. rewrite Ascii.eqb_refl.
      repeat split; auto; rewrite Hlen; [lia|].
      pose proof (Nat.mod_upper_bound (String.length digits - 1) 3
                    ltac:(discriminate)). lia.
Qed.

(** * Total Cases under a narrower selection *)

Lemma sumZ_subseq (l1 l2 : list Row) :
  subseq l1 l2 ->
  Forall (fun r => 0 <= Total r) l2 ->
  0 <= sumZ (map Total l1) <= sumZ (map Total l2).
Proof.
  induction 1 as [| x l1 l2 _ IH | x l1 l2 _ IH]; intro Hpos; simpl.
  - lia.
  - inversion Hpos; subst. specialize (IH ltac:(assumption)). lia.
  - inversion Hpos; subst. specialize (IH ltac:(assumption)). lia.
Qed.

(** X20: when no Total cell is negative and the wider selection's Total
    Cases does not overflow, narrowing the selection never raises Total
    Cases, and Total Cases is never negative. *)
Theorem total_cases_narrows (df : DataFrame) (narrow wide : FilterSpec) :
  narrows narrow wide ->
  Forall (fun r => 0 <= Total r) df ->
  sumZ (map Total (filtered_df df wide)) < 2 ^ 63 ->
  0 <= total_cases (filtered_df df narrow) <= total_cases (filtered_df df wide).
Proof.
  intros Hn Hpos Hbound.
  assert (Hsub : subseq (filtered_df df narrow) (filtered_df df wide)).
  { unfold filtered_df. apply subseq_filter_filter. intro r. now apply mask_narrows. }
  assert (Hwide : Forall (fun r => 0 <= Total r) (filtered_df df wide)).
  { apply Forall_forall. intros r Hr. unfold filtered_df in Hr.
    apply filter_In in Hr. rewrite Forall_forall in Hpos. now apply Hpos. }
  pose proof (sumZ_subseq _ _ Hsub Hwide) as Hle.
  unfold total_cases. rewrite !sum64_exact; lia.
Qed.

Lemma total_cases_narrows_witness :
  let df := [ mkRow "Kerala" "Causes" "Male" "15-29" 2019 10;
              mkRow "Goa" "Causes" "Female" "30-44" 2020 7;
              mkRow "Kerala" "Means" "Female" "15-29" 2021 3 ] in
  let wide := mkFilterSpec ["Kerala"; "Goa"] (2019, 2021) ["Causes"; "Means"]
                           ["Male"; "Female"] ["15-29"; "30-44"] in
  let narrow := mkFilterSpec ["Kerala"] (2020, 2021) ["Causes"; "Means"]
                             ["Male"; "Female"] ["15-29"] in
  total_cases (filtered_df df narrow) = 3
  /\ total_cases (filtered_df df wide) = 20
  /\ 0 <= total_cases (filtered_df df narrow) <= total_cases (filtered_df df wide).
Proof.
  intros df wide narrow. split; [reflexivity|]. split; [reflexivity|].
  apply (total_cases_narrows df narrow wide).
  - unfold narrows, incl. simpl. repeat split; try lia; intros a Ha; tauto.
  - repeat constructor; simpl; lia.
  - simpl. lia.
Defined.

(** * Text beyond ASCII *)

Ltac n_cases :=
  repeat match goal with
         | |- context [(?a <=? ?b)%N] => destruct (N.leb_spec a b)
         | |- context [(?a =? ?b)%N] => destruct (N.eqb_spec a b)
         end;
  cbn [andb orb negb].

(** On an ASCII character each case mapping is one ASCII character, a
    fixed point of the mapping, and as cased as the character itself. *)
Lemma ascii_case_char (b : bool) (c : N) :
  (c < 128)%N ->
  exists m,
    (if b then Unicode.to_lower c else Unicode.to_title c) = [m]
    /\ (m < 128)%N
    /\ (if b then Unicode.to_lower m else Unicode.to_title m) = [m]
    /\ Unicode.is_cased m = Unicode.is_cased c.
Proof.
  intro Hc.
  unfold Unicode.to_lower, Unicode.to_title, Unicode.is_cased,
    Unicode.is_upper, Unicode.is_lower.
  destruct b; n_cases; try (exfalso; lia);
    eexists; (split; [reflexivity|]); n_cases; try (exfalso; lia);
    repeat split; try reflexivity; lia.
Qed.

Lemma title_from_ascii (t : Unicode.text) :
  forall b,
    Unicode.ascii_text t ->
    Unicode.ascii_text (Unicode.title_from b t)
    /\ Unicode.title_from b (Unicode.title_from b t) = Unicode.title_from b t.
Proof.
  unfold Unicode.ascii_text.
  induction t as [|c t IH]; intros b Ht; [split; [constructor | reflexivity]|].
  inversion Ht as [| ? ? Hc Ht']; subst.
  destruct (ascii_case_char b c Hc) as (m & Hm & Hlt & Hfix & Hcased).
  destruct (IH (Unicode.is_cased c) Ht') as [IHa IHi].
  destruct b; cbn [Unicode.title_from]; rewrite Hm; cbn [app];
    (split; [now constructor |]);
    cbn [Unicode.title_from]; rewrite Hfix, Hcased, IHi; reflexivity.
Qed.

Lemma unicode_title_columns_idem (r : Unicode.Row) :
  Unicode.ascii_row r ->
  Unicode.title_columns (Unicode.title_columns r) = Unicode.title_columns r.
Proof.
  intros (Hs & Ht & Hg). unfold Unicode.title_columns, Unicode.str_title.
  cbn [Unicode.State Unicode.Type_ Unicode.Gender Unicode.Age_group
       Unicode.Year Unicode.Total].
  destruct (title_from_ascii (Unicode.State r) false Hs) as [_ ->].
  destruct (title_from_ascii (Unicode.Type_ r) false Ht) as [_ ->].
  destruct (title_from_ascii (Unicode.Gender r) false Hg) as [_ ->].
  reflexivity.
Qed.

Lemma normalize_twice {A : Type} (f : A -> A) (p : A -> bool) (l : list A) :
  (forall a, In a l -> f (f a) = f a) ->
  filter p (map f (filter p (map f l))) = filter p (map f l).
Proof.
  intro H.
  assert (Hfix : map f (filter p (map f l)) = filter p (map f l)).
  { rewrite filter_map_comm, map_map. apply map_ext_in.
    intros a Ha. apply filter_In in Ha. apply H. tauto. }
  rewrite Hfix. apply filter_idem.
Qed.

(** The two models of [str.title] agree on ASCII text. *)
Lemma str_title_encode (s : string) :
  Unicode.ascii_text (Unicode.encode s) ->
  Unicode.str_title (Unicode.encode s) = Unicode.encode (str_title s).
Proof.
  unfold Unicode.str_title, str_title, Unicode.encode, Unicode.ascii_text.
  generalize false.
  induction s as [|c s IH]; intros b Hs; [reflexivity|].
  cbn [list_ascii_of_string map] in Hs. inversion Hs as [| ? ? Hc Hs']; subst.
  cbn [list_ascii_of_string map Unicode.title_from title_from].
  assert (Hchar : Unicode.is_cased (N_of_ascii c) = is_cased c
                  /\ Unicode.to_lower (N_of_ascii c) = [N_of_ascii (to_lower c)]
                  /\ Unicode.to_title (N_of_ascii c) = [N_of_ascii (to_title c)]).
  { clear - Hc. destruct c as [[] [] [] [] [] [] [] []];
      solve [repeat split; reflexivity | vm_compute in Hc; discriminate Hc]. }
  destruct Hchar as (-> & Hl & Ht). rewrite (IH _ Hs').
  destruct b; [rewrite Hl | rewrite Ht]; reflexivity.
Qed.

(** C7, as the claim states it, fails outside ASCII: title-casing the
    State U+01F0 U+0061 gives U+004A U+030C U+0061, whose last letter now
    follows a character that is not cased, so title-casing again gives
    U+004A U+030C U+0041. *)
Lemma load_data_not_idempotent :
  Unicode.load_data (Unicode.load_data j_caron_table)
  <> Unicode.load_data j_caron_table.
Proof. intro H. vm_compute in H. discriminate H. Qed.

(** C7, amended: on a table whose State, Type and Gender cells are ASCII
    text, normalization is idempotent. *)
Theorem load_data_idempotent_on_ascii (df : list Unicode.Row) :
  Unicode.ascii_table df ->
  Unicode.load_data (Unicode.load_data df) = Unicode.load_data df.
Proof.
  intro Hascii. unfold Unicode.load_data. cbv zeta.
  apply normalize_twice. intros r Hr.
  apply unicode_title_columns_idem.
  unfold Unicode.ascii_table in Hascii. rewrite Forall_forall in Hascii.
  now apply Hascii.
Qed.

Lemma load_data_idempotent_on_ascii_witness :
  let df := [ Unicode.mkRow (Unicode.encode "kerala") (Unicode.encode "causes")
                            (Unicode.encode "MALE") (Unicode.encode "15-29") 2019 10;
              Unicode.mkRow (Unicode.encode "total (states)")
                            (Unicode.encode "causes") (Unicode.encode "male")
                            (Unicode.encode "15-29") 2019 99 ] in
  Unicode.load_data df
  = [ Unicode.mkRow (Unicode.encode "Kerala") (Unicode.encode "Causes")
                    (Unicode.encode "Male") (Unicode.encode "15-29") 2019 10 ]
  /\ Unicode.load_data (Unicode.load_data df) = Unicode.load_data df.
Proof.
  intro df. split; [reflexivity|].
  apply (load_data_idempotent_on_ascii df).
  repeat constructor.
Defined.
